(** * CEN64: data cache, log file, ROM loading, exit codes, RSP opcode table

    A shallow embedding of [vr4300/dcache.c], [common/debug.c],
    [common/debug.h], [cen64.c] and the vector load/store entries of
    [rsp/opcodes_priv.h], followed by the properties established for them.

    Conventions.  C unsigned integers are [Z] with the wrap-around written
    out ([u32]); a pointer into [dcache->lines] is the index of the line; a
    nullable pointer is an [option]; functions that write through a pointer
    return the new value; calls that leave the translation units embedded
    here are either read from a [host] record (when the caller looks at
    their result) or recorded in the trace of the [world]. *)

From Stdlib Require Import ZArith Lia List String Ascii Btauto.
From Stdlib.Strings Require Import Byte.
From stdpp Require Import base numbers list strings.

Local Open Scope Z_scope.

(* ================================================================== *)
(** * Part I: definitions *)
(* ================================================================== *)

(** ** Fixed-width arithmetic *)

(** Conversion to [uint32_t]. *)
Definition u32 (x : Z) : Z := x mod 2 ^ 32.

(** ** vr4300/dcache.c *)

Module Dcache.

(** Modelled from the spec: [struct vr4300_dcache_line] and
    [struct vr4300_dcache] are declared in [vr4300/dcache.h], which is not
    among the sources.  The spec gives a line 16 bytes of data and a
    metadata word with the physical tag in its upper 20 bits, the dirty bit
    and the valid bit below, and gives the cache 512 lines.  Every
    expression stored into [metadata] below is computed in [uint32_t], so
    a wider field would hold the same values. *)
Record vr4300_dcache_line := mk_line {
  data : list byte;
  metadata : Z
}.

Record vr4300_dcache := mk_dcache {
  lines : list vr4300_dcache_line
}.

Definition NUM_LINES : nat := 512.
Definition LINE_SIZE : nat := 16.

(** The all-zero line, read where a list is shorter than the C array. *)
Definition zero_line : vr4300_dcache_line :=
  {| data := replicate LINE_SIZE x00; metadata := 0 |}.

(** The shape the C type enforces: [lines] is an array of 512. *)
Definition dcache_ok (dc : vr4300_dcache) : Prop :=
  length (lines dc) = NUM_LINES.

(** [get_line] and [get_line_const]: [dcache->lines + (vaddr >> 4 & 0x1FF)].
    The pointer is the index. *)
Definition get_line (vaddr : Z) : nat :=
  Z.to_nat (Z.land (Z.shiftr vaddr 4) 0x1FF).

Definition get_line_const (vaddr : Z) : nat :=
  Z.to_nat (Z.land (Z.shiftr vaddr 4) 0x1FF).

(** Dereferencing a line pointer, and storing through it. *)
Definition deref (dc : vr4300_dcache) (p : nat) : vr4300_dcache_line :=
  default zero_line (lines dc !! p).

Definition store (dc : vr4300_dcache) (p : nat) (l : vr4300_dcache_line)
  : vr4300_dcache :=
  {| lines := <[p := l]> (lines dc) |}.

(** [return line->metadata >> 12;] *)
Definition get_tag (line : vr4300_dcache_line) : Z :=
  Z.shiftr (metadata line) 12.

(** [line->metadata &= ~0x1;] *)
Definition invalidate_line (line : vr4300_dcache_line) : vr4300_dcache_line :=
  {| data := data line;
     metadata := Z.land (metadata line) (u32 (Z.lnot 0x1)) |}.

(** [return (line->metadata & 0x2) == 0x2;] *)
Definition is_dirty (line : vr4300_dcache_line) : bool :=
  Z.land (metadata line) 0x2 =? 0x2.

(** [return (line->metadata & 0x1) == 0x1;] *)
Definition is_valid (line : vr4300_dcache_line) : bool :=
  Z.land (metadata line) 0x1 =? 0x1.

(** [line->metadata &= ~0x2;] *)
Definition set_clean (line : vr4300_dcache_line) : vr4300_dcache_line :=
  {| data := data line;
     metadata := Z.land (metadata line) (u32 (Z.lnot 0x2)) |}.

(** [line->metadata |= 0x2;] *)
Definition set_dirty (line : vr4300_dcache_line) : vr4300_dcache_line :=
  {| data := data line;
     metadata := Z.lor (metadata line) 0x2 |}.

(** [line->metadata = (tag << 12) | (line->metadata & 0x1);]
    [tag] is a [uint32_t], so the shift is taken modulo [2^32]. *)
Definition set_tag (line : vr4300_dcache_line) (tag : Z) : vr4300_dcache_line :=
  {| data := data line;
     metadata := Z.lor (u32 (Z.shiftl tag 12)) (Z.land (metadata line) 0x1) |}.

(** [line->metadata = (tag << 12) | 0x1;] *)
Definition validate_line (line : vr4300_dcache_line) (tag : Z)
  : vr4300_dcache_line :=
  {| data := data line;
     metadata := Z.lor (u32 (Z.shiftl tag 12)) 0x1 |}.

(** [memcpy(line->data, data, sizeof(line->data));] overwrites the whole
    array with the first 16 bytes of the source (which C requires to be
    there). *)
Definition memcpy_data (line : vr4300_dcache_line) (src : list byte)
  : vr4300_dcache_line :=
  {| data := take LINE_SIZE src;
     metadata := metadata line |}.

Definition vr4300_dcache_fill (dc : vr4300_dcache) (vaddr paddr : Z)
    (src : list byte) : vr4300_dcache :=
  let p := get_line vaddr in
  let line := deref dc p in
  let line := memcpy_data line src in
  let line := validate_line line (Z.shiftr paddr 4) in
  let line := set_clean line in
  store dc p line.

Definition vr4300_dcache_get_tag (line : vr4300_dcache_line) : Z :=
  get_tag line.

Definition vr4300_dcache_init (dc : vr4300_dcache) : vr4300_dcache := dc.

Definition vr4300_dcache_invalidate (dc : vr4300_dcache) (vaddr : Z)
  : vr4300_dcache :=
  let p := get_line vaddr in
  store dc p (invalidate_line (deref dc p)).

Definition vr4300_dcache_invalidate_hit (dc : vr4300_dcache) (vaddr paddr : Z)
  : vr4300_dcache :=
  let p := get_line vaddr in
  let line := deref dc p in
  let ptag := get_tag line in
  if (ptag =? Z.shiftr paddr 4) && is_valid line
  then store dc p (invalidate_line line)
  else dc.

(** [NULL] is [None]; a hit is the pointer to the line. *)
Definition vr4300_dcache_probe (dc : vr4300_dcache) (vaddr paddr : Z)
  : option nat :=
  let p := get_line_const vaddr in
  let line := deref dc p in
  let ptag := get_tag line in
  if (ptag =? Z.shiftr paddr 4) && is_valid line then Some p else None.

Definition vr4300_dcache_set_tag (dc : vr4300_dcache) (vaddr tag : Z)
  : vr4300_dcache :=
  let p := get_line vaddr in
  store dc p (set_tag (deref dc p) tag).

Definition vr4300_dcache_should_flush_line (dc : vr4300_dcache) (vaddr : Z)
  : option nat :=
  let p := get_line vaddr in
  let line := deref dc p in
  if is_dirty line && is_valid line then Some p else None.

(** The body is [if (is_valid(line)) invalidate_line(line);] under the
    comment [TODO: Writeback.] *)
Definition vr4300_dcache_wb_invalidate (dc : vr4300_dcache) (vaddr : Z)
  : vr4300_dcache :=
  let p := get_line vaddr in
  let line := deref dc p in
  if is_valid line then store dc p (invalidate_line line) else dc.

(** What a caller of the cache can observe of a call: the cache, and the
    blocks the call sent to memory, oldest first, as (physical address,
    bytes).  No function of [dcache.c] receives the bus or a memory,
    and none calls out of the file except [memcpy]: the list of blocks
    sent is passed through untouched. *)
Record machine := mk_machine {
  m_dcache : vr4300_dcache;
  m_written : list (Z * list byte)
}.

Definition run_wb_invalidate (m : machine) (vaddr : Z) : machine :=
  {| m_dcache := vr4300_dcache_wb_invalidate (m_dcache m) vaddr;
     m_written := m_written m |}.

(** Sample values. *)
Definition empty_dcache : vr4300_dcache :=
  {| lines := replicate NUM_LINES zero_line |}.

Definition sample_block : list byte :=
  [x11; x22; x33; x44; x00; x01; x02; x03;
   x04; x05; x06; x07; x08; x09; x0a; x0b].

(** Line 0 holds [sample_block], valid and dirty, tag 0. *)
Definition dirty_dcache : vr4300_dcache :=
  store empty_dcache 0%nat {| data := sample_block; metadata := 0x3 |}.

End Dcache.

(** ** The host side of [common/debug.c] and [cen64.c] *)

Module Host.

(** A [FILE *] that is not [NULL]. *)
Definition FILE : Type := nat.

(** Modelled from the spec: [struct rom_file] ([os/common/rom_file.h]) and
    [struct save_file] ([os/common/save_file.h]) are not among the
    sources; [cen64.c] reads their members [ptr] and [size], the spec
    calls them byte ranges made available by path. *)
Record rom_file := mk_rom_file { rom_ptr : list byte; rom_size : Z }.
Record save_file := mk_save_file { save_ptr : list byte; save_size : Z }.

(** The members of [struct cart_db_entry] that [cen64_main] prints. *)
Record cart_db_entry := mk_cart_db_entry {
  rom_id : string;
  regions : string;
  description : string
}.

(** [enum pak_type]: [cen64.c] names [PAK_MEM] and [PAK_TRANSFER]; the
    other two stand for every other value. *)
Inductive pak_type := PAK_NONE | PAK_MEM | PAK_RUMBLE | PAK_TRANSFER.

(** The members of [struct controller] that [load_paks] touches.  A
    [char *] is an [option string]. *)
Record struct_controller := mk_controller {
  pak : pak_type;
  mempak_path : option string;
  mempak_save : save_file;
  tpak_rom_path : option string;
  tpak_rom : rom_file;
  tpak_save_path : option string;
  tpak_save : save_file
}.

(** The members of [struct cen64_options] that [cen64_main] reads.
    [controller] points to the array of four that [cen64_main] declares:
    here the field holds the array. *)
Record cen64_options := mk_options {
  ddipl_path : option string;
  ddrom_path : option string;
  pifrom_path : option string;
  cart_path : option string;
  log_path : option string;
  eeprom_path : option string;
  eeprom_size : Z;
  sram_path : option string;
  flashram_path : option string;
  controller : list struct_controller;
  no_audio : bool;
  no_video : bool;
  multithread : bool
}.

(** The two members of [struct cen64_device] assigned in [cen64.c]. *)
Record cen64_device := mk_device {
  dev_multithread : bool;
  dev_running : bool
}.

(** An argument of a [printf]-style call: a [char *] for [%s], an integer
    for [%02X]. *)
Inductive printf_arg :=
| arg_s (s : option string)
| arg_x (n : Z).

(** Calls whose only effect is outside the embedded sources. *)
Inductive event :=
| ev_printf (fmt : string) (args : list printf_arg)
| ev_fprintf (fp : FILE) (fmt : string) (args : list printf_arg)
| ev_fclose (fp : option FILE)
| ev_print_command_line_usage (argv0 : option string)
| ev_cen64_alloc_cleanup
| ev_close_rom_file (f : rom_file)
| ev_controller_pak_format (ptr : list byte)
| ev_gb_init (i : nat)
| ev_device_destroy
| ev_cen64_free
| ev_cen64_gl_window_thread
| ev_cen64_thread_join.

(** The global [FILE *log_fp] of [debug.c] and the calls made so far,
    oldest first. *)
Record world := mk_world {
  log_fp : option FILE;
  trace : list event
}.

(** Program start: [log_fp] has static storage, so it is [NULL]. *)
Definition init_world : world := {| log_fp := None; trace := [] |}.

(** What the functions that are called but not defined in the sources
    return.  A return code is the [int] the C function returns; a
    structure written through a pointer argument is returned next to it. *)
Record host := mk_host {
  fopen : string -> string -> option FILE;
  cart_db_is_well_formed : bool;
  cen64_alloc_init : Z;
  default_cen64_options : cen64_options;
  parse_options : cen64_options -> Z -> list string -> Z * cen64_options;
  open_rom_file : option string -> Z * rom_file;
  sha1 : list byte -> Z -> list byte;
  SHA1_SIZE : nat;
  sha1_dd_ipl : list byte;
  sha1_pifrom_ntsc : list byte;
  sha1_pifrom_ntsc_j : list byte;
  sha1_pifrom_pal : list byte;
  cart_db_get_entry : list byte -> option cart_db_entry;
  open_save_file : option string -> Z -> Z * save_file * Z;
  open_gb_save : option string -> Z * save_file;
  (** [Some] when [cen64_alloc] returns a non-[NULL] block. *)
  cen64_alloc : option cen64_device;
  (** [Some] when [device_create] returns a non-[NULL] device. *)
  device_create :
    cen64_device -> rom_file -> rom_file -> rom_file -> rom_file ->
    save_file -> save_file -> save_file -> list struct_controller ->
    bool -> bool -> option cen64_device;
  cen64_thread_create : Z
}.

(** [<stdlib.h>]: the values on the platforms CEN64 builds for. *)
Definition EXIT_SUCCESS : Z := 0.
Definition EXIT_FAILURE : Z := 1.

(** Modelled from the spec: [FLASHRAM_SIZE] and [MEMPAK_SIZE] are defined
    in headers that are not among the sources; the spec gives FlashRAM
    128 KiB and the controller pak 32 KiB. *)
Definition FLASHRAM_SIZE : Z := 0x20000.
Definition MEMPAK_SIZE : Z := 0x8000.

(** *** State passing *)

Definition M (A : Type) : Type := world -> A * world.

#[global] Instance M_ret : MRet M := fun A a w => (a, w).

#[global] Instance M_bind : MBind M :=
  fun A B k m w => k (fst (m w)) (snd (m w)).

Definition call (e : event) : M unit :=
  fun w => (tt, {| log_fp := log_fp w; trace := trace w ++ [e] |}).

(** [<stdio.h>] *)
Definition printf (fmt : string) (args : list printf_arg) : M unit :=
  call (ev_printf fmt args).

Definition fprintf (fp : FILE) (fmt : string) (args : list printf_arg)
  : M unit :=
  call (ev_fprintf fp fmt args).

Definition fclose (fp : option FILE) : M unit := call (ev_fclose fp).

(** Reading and assigning the global [log_fp]. *)
Definition get_log_fp : M (option FILE) := fun w => (log_fp w, w).

Definition set_log_fp (fp : option FILE) : M unit :=
  fun w => (tt, {| log_fp := fp; trace := trace w |}).

(** [if (c) { body }] *)
Definition when (c : bool) (body : M unit) : M unit :=
  if c then body else mret tt.

(** A C condition on an [int]. *)
Definition nonzero (n : Z) : bool := negb (n =? 0).

(** A C condition on a pointer. *)
Definition nonnull {A} (p : option A) : bool :=
  match p with Some _ => true | None => false end.

End Host.

(** ** common/debug.c and common/debug.h *)

Module Debug.
Import Host.

(** [log_fp = fopen(path, "w"); if (!log_fp) return 1; return 0;] *)
Definition open_log_file (h : host) (path : string) : M Z :=
  set_log_fp (fopen h path "w") ;;
  fp ← get_log_fp ;
  if negb (nonnull fp) then mret 1 else mret 0.

(** [if (!log_fp) fclose(log_fp);] *)
Definition close_log_file : M unit :=
  fp ← get_log_fp ;
  when (negb (nonnull fp)) (fclose fp).

(** [#define LOG(...) do { if (log_fp) { fprintf(log_fp, __VA_ARGS__); } }
    while (0)] *)
Definition LOG (fmt : string) (args : list printf_arg) : M unit :=
  fp ← get_log_fp ;
  match fp with
  | Some f => fprintf f fmt args
  | None => mret tt
  end.

(** A client of the log: a sequence of calls to [open_log_file] and uses
    of [LOG].  The result lists what each [open_log_file] returned. *)
Inductive log_call :=
| do_open_log_file (path : string)
| do_LOG (fmt : string) (args : list printf_arg).

Fixpoint run_log_calls (h : host) (cs : list log_call) : M (list Z) :=
  match cs with
  | [] => mret []
  | do_open_log_file path :: cs' =>
      rc ← open_log_file h path ;
      rcs ← run_log_calls h cs' ;
      mret (rc :: rcs)
  | do_LOG fmt args :: cs' =>
      LOG fmt args ;;
      run_log_calls h cs'
  end.

(** No call opens a log file successfully. *)
Definition no_open_succeeds (h : host) (cs : list log_call) : Prop :=
  Forall (fun c => match c with
                   | do_open_log_file path => fopen h path "w" = None
                   | do_LOG _ _ => True
                   end) cs.

End Debug.

(** ** cen64.c *)

Module Cen64.
Import Host Debug.

#[global] Instance byte_eq_dec : EqDecision byte := Byte.byte_eq_dec.
#[global] Instance pak_type_eq_dec : EqDecision pak_type.
Proof. solve_decision. Defined.

(** [memset(&x, 0, sizeof(x))] and the initialiser [{ { 0, }, }]. *)
Definition zero_rom_file : rom_file := {| rom_ptr := []; rom_size := 0 |}.
Definition zero_save_file : save_file := {| save_ptr := []; save_size := 0 |}.
Definition zero_controller : struct_controller :=
  {| pak := PAK_NONE;
     mempak_path := None; mempak_save := zero_save_file;
     tpak_rom_path := None; tpak_rom := zero_rom_file;
     tpak_save_path := None; tpak_save := zero_save_file |}.

Definition close_rom_file (f : rom_file) : M unit := call (ev_close_rom_file f).
Definition cen64_alloc_cleanup : M unit := call ev_cen64_alloc_cleanup.
Definition print_command_line_usage (argv0 : option string) : M unit :=
  call (ev_print_command_line_usage argv0).

(** [path && open_rom_file(path, file)]: the file is opened only for a
    path that is not [NULL], and the condition is false otherwise. *)
Definition open_rom_file_if_path (h : host) (path : option string)
    (file : rom_file) : Z * rom_file :=
  if nonnull path then open_rom_file h path else (0, file).

(** [sha1(rom->ptr, rom->size, sha1_calc);
     return memcmp(sha1_calc, good_sum, SHA1_SIZE) == 0;] *)
Definition validate_sha (h : host) (rom : rom_file) (good_sum : list byte)
  : bool :=
  let sha1_calc := sha1 h (rom_ptr rom) (rom_size rom) in
  bool_decide (take (SHA1_SIZE h) sha1_calc = take (SHA1_SIZE h) good_sum).

Definition roms : Type := rom_file * rom_file * rom_file * rom_file.

(** The two blocks under [#if 0] are not compiled and have no counterpart
    here. *)
Definition load_roms (h : host)
    (ddipl_path ddrom_path pifrom_path cart_path : option string)
    (ddipl ddrom pifrom cart : rom_file) : M (Z * roms) :=
  let ddipl := zero_rom_file in
  let '(rc, ddipl) := open_rom_file_if_path h ddipl_path ddipl in
  if nonzero rc then
    printf "Failed to load DD IPL ROM: %s.\n" [arg_s ddipl_path] ;;
    mret (1, (ddipl, ddrom, pifrom, cart))
  else
    when (nonnull ddipl_path && negb (validate_sha h ddipl (sha1_dd_ipl h)))
      (printf "Invalid SHA1 on DD IPL.\n" []) ;;
    let '(rc, ddrom) := open_rom_file_if_path h ddrom_path ddrom in
    if nonzero rc then
      printf "Failed to load DD ROM: %s.\n" [arg_s ddrom_path] ;;
      when (nonnull ddipl_path) (close_rom_file ddipl) ;;
      mret (2, (ddipl, ddrom, pifrom, cart))
    else
      let '(rc, pifrom) := open_rom_file h pifrom_path in
      if nonzero rc then
        printf "Failed to load PIF ROM: %s.\n" [arg_s pifrom_path] ;;
        when (nonnull ddipl_path) (close_rom_file ddipl) ;;
        when (nonnull ddrom_path) (close_rom_file ddrom) ;;
        mret (3, (ddipl, ddrom, pifrom, cart))
      else
        (if validate_sha h pifrom (sha1_pifrom_ntsc h) then
           printf "Using NTSC-U PIFROM\n" []
         else if validate_sha h pifrom (sha1_pifrom_ntsc_j h) then
           printf "Using NTSC-J PIFROM\n" []
         else if validate_sha h pifrom (sha1_pifrom_pal h) then
           printf "Using PAL PIFROM\n" []
         else
           printf "Unknown or corrupted PIFROM: %s.\n" [arg_s pifrom_path]) ;;
        let '(rc, cart) := open_rom_file_if_path h cart_path cart in
        if nonzero rc then
          printf "Failed to load cart: %s.\n" [arg_s cart_path] ;;
          when (nonnull ddipl_path) (close_rom_file ddipl) ;;
          when (nonnull ddrom_path) (close_rom_file ddrom) ;;
          close_rom_file pifrom ;;
          mret (4, (ddipl, ddrom, pifrom, cart))
        else
          mret (0, (ddipl, ddrom, pifrom, cart)).

(** The body of [for (i = 0; i < 4; ++i)] in [load_paks], for the [n]
    iterations from [i] on.  The result is the return value and the
    array. *)
Fixpoint load_paks_loop (h : host) (n i : nat)
    (controller : list struct_controller)
  : M (Z * list struct_controller) :=
  match n with
  | O => mret (0, controller)
  | S n' =>
    let c := default zero_controller (controller !! i) in
    if bool_decide (pak c = PAK_MEM) && nonnull (mempak_path c) then
      let '(rc, save, created) := open_save_file h (mempak_path c) MEMPAK_SIZE in
      let c := {| pak := pak c;
                  mempak_path := mempak_path c; mempak_save := save;
                  tpak_rom_path := tpak_rom_path c; tpak_rom := tpak_rom c;
                  tpak_save_path := tpak_save_path c;
                  tpak_save := tpak_save c |} in
      let controller := <[i := c]> controller in
      if nonzero rc then
        printf "Can't open mempak file %s\n" [arg_s (mempak_path c)] ;;
        mret (-1, controller)
      else
        when (nonzero created)
          (call (ev_controller_pak_format (save_ptr (mempak_save c)))) ;;
        load_paks_loop h n' (S i) controller
    else if bool_decide (pak c = PAK_TRANSFER) then
      let '(rc, rom) :=
        if nonnull (tpak_rom_path c) then open_rom_file h (tpak_rom_path c)
        else (0, tpak_rom c) in
      let c := {| pak := pak c;
                  mempak_path := mempak_path c; mempak_save := mempak_save c;
                  tpak_rom_path := tpak_rom_path c; tpak_rom := rom;
                  tpak_save_path := tpak_save_path c;
                  tpak_save := tpak_save c |} in
      let controller := <[i := c]> controller in
      if nonzero rc then
        printf "Can't open transfer pak ROM\n" [] ;;
        mret (-1, controller)
      else
        when (negb (nonnull (tpak_rom_path c)))
          (printf "No ROM supplied for transfer pak.\n" [] ;;
           printf "The game will run but probably won't do anything interest\n"
             []) ;;
        let '(rc, save) :=
          if nonnull (tpak_save_path c) then open_gb_save h (tpak_save_path c)
          else (0, tpak_save c) in
        let c := {| pak := pak c;
                    mempak_path := mempak_path c; mempak_save := mempak_save c;
                    tpak_rom_path := tpak_rom_path c; tpak_rom := tpak_rom c;
                    tpak_save_path := tpak_save_path c;
                    tpak_save := save |} in
        let controller := <[i := c]> controller in
        if nonzero rc then
          printf "Can't open transfer pak save\n" [] ;;
          mret (-1, controller)
        else
          when (negb (nonnull (tpak_save_path c)))
            (printf "No save supplied for transfer pak. Just FYI.\n" []) ;;
          call (ev_gb_init i) ;;
          load_paks_loop h n' (S i) controller
    else
      load_paks_loop h n' (S i) controller
  end.

Definition load_paks (h : host) (controller : list struct_controller)
  : M (Z * list struct_controller) :=
  load_paks_loop h 4 0 controller.

(** [cen64_thread_create] starts [run_device_thread], which calls
    [device_run]; the new thread is outside this model, its creation is
    what [run_device] tests. *)
Definition run_device (h : host) (device : cen64_device) (no_video : bool)
  : M (Z * cen64_device) :=
  let device := {| dev_multithread := dev_multithread device;
                   dev_running := true |} in
  if nonzero (cen64_thread_create h) then
    printf "Failed to create the main emulation thread.\n" [] ;;
    call ev_device_destroy ;;
    mret (1, device)
  else
    when (negb no_video) (call ev_cen64_gl_window_thread) ;;
    let device := {| dev_multithread := dev_multithread device;
                     dev_running := false |} in
    call ev_cen64_thread_join ;;
    mret (0, device).

(** [path != NULL && open_save_file(path, size, file, created)]; the last
    component is what the call stores in [*created]. *)
Definition open_save_file_if_path (h : host) (path : option string)
    (size : Z) (file : save_file) : Z * save_file * Z :=
  if nonnull path then open_save_file h path size else (0, file, 0).

(** The part of [cen64_main] from the allocation of the device on; the
    result is [status]. *)
Definition create_and_run (h : host) (options : cen64_options)
    (ddipl ddrom pifrom cart : rom_file) (eeprom sram flashram : save_file)
    (controller : list struct_controller) : M Z :=
  match cen64_alloc h with
  | None =>
      printf "Failed to allocate enough memory for a device.\n" [] ;;
      mret EXIT_FAILURE
  | Some device =>
      status ←
        match device_create h device ddipl ddrom pifrom cart eeprom sram
                flashram controller (no_audio options) (no_video options) with
        | None =>
            printf "Failed to create a device.\n" [] ;;
            mret EXIT_FAILURE
        | Some device =>
            let device := {| dev_multithread := multithread options;
                             dev_running := dev_running device |} in
            '(status, device) ← run_device h device (no_video options) ;
            call ev_device_destroy ;;
            mret status
        end ;
      call ev_cen64_free ;;
      mret status
  end.

(** [// Release resources.] to the end of [cen64_main]. *)
Definition release_resources (options : cen64_options)
    (ddipl ddrom pifrom cart : rom_file) : M unit :=
  when (nonnull (ddipl_path options)) (close_rom_file ddipl) ;;
  when (nonnull (ddrom_path options)) (close_rom_file ddrom) ;;
  when (nonnull (cart_path options)) (close_rom_file cart) ;;
  when (nonnull (log_path options)) close_log_file ;;
  close_rom_file pifrom ;;
  cen64_alloc_cleanup.

(** [argv[0]] is [argv !! 0]; [argv + 1] is [drop 1 argv].  An early
    [return] is the [then] branch of a conditional whose [else] branch
    is the rest of the function.  [parse_options] fills the array of
    controllers through [options.controller].  The [memset]s give
    [load_roms] and the [open_save_file] calls zeroed structures;
    [pifrom] is not initialised, and [load_roms] assigns it before it is
    read. *)
Definition cen64_main (h : host) (argc : Z) (argv : list string) : M Z :=
  let controller := replicate 4 zero_controller in
  let d := default_cen64_options h in
  let options :=
    {| ddipl_path := ddipl_path d; ddrom_path := ddrom_path d;
       pifrom_path := pifrom_path d; cart_path := cart_path d;
       log_path := log_path d; eeprom_path := eeprom_path d;
       eeprom_size := eeprom_size d; sram_path := sram_path d;
       flashram_path := flashram_path d; controller := controller;
       no_audio := no_audio d; no_video := no_video d;
       multithread := multithread d |} in
  if negb (cart_db_is_well_formed h) then
    printf "Internal cart detection database is not well-formed.\n" [] ;;
    mret EXIT_FAILURE
  else if nonzero (cen64_alloc_init h) then
    printf "Failed to initialize the low-level allocators.\n" [] ;;
    mret EXIT_FAILURE
  else if argc <? 3 then
    print_command_line_usage (argv !! 0%nat) ;;
    cen64_alloc_cleanup ;;
    mret EXIT_SUCCESS
  else
    let '(rc, options) := parse_options h options (argc - 1) (drop 1 argv) in
    let controller := Host.controller options in
    if nonzero rc then
      printf "Invalid command line argument(s) specified.\n" [] ;;
      print_command_line_usage (argv !! 0%nat) ;;
      cen64_alloc_cleanup ;;
      mret EXIT_FAILURE
    else
      '(rc, (ddipl, ddrom, pifrom, cart)) ←
        load_roms h (ddipl_path options) (ddrom_path options)
          (pifrom_path options) (cart_path options)
          zero_rom_file zero_rom_file zero_rom_file zero_rom_file ;
      if nonzero rc then
        cen64_alloc_cleanup ;;
        mret EXIT_FAILURE
      else
        rc ← match log_path options with
             | Some path => open_log_file h path
             | None => mret 0
             end ;
        if nonzero rc then
          cen64_alloc_cleanup ;;
          mret EXIT_FAILURE
        else
          (if 0x40 <=? rom_size cart then
             match cart_db_get_entry h (rom_ptr cart) with
             | Some cart_info =>
                 let raw n := arg_x (Z.of_N (Byte.to_N
                                (default x00 (rom_ptr cart !! n)))) in
                 printf "Detected cart: %s[%s] - %s\n"
                   [arg_s (Some (rom_id cart_info));
                    arg_s (Some (regions cart_info));
                    arg_s (Some (description cart_info))] ;;
                 LOG "ROM,%s,%s,%s,%02X%02X%02X%02X,%02X%02X%02X%02X\n"
                   [arg_s (Some (rom_id cart_info));
                    arg_s (Some (regions cart_info));
                    arg_s (Some (description cart_info));
                    raw 0x10%nat; raw 0x11%nat; raw 0x12%nat; raw 0x13%nat;
                    raw 0x14%nat; raw 0x15%nat; raw 0x16%nat; raw 0x17%nat]
             | None => mret tt
             end
           else mret tt) ;;
          '(rc, controller) ← load_paks h controller ;
          if nonzero rc then
            cen64_alloc_cleanup ;;
            mret EXIT_FAILURE
          else
            let '(rc, eeprom, _) :=
              open_save_file_if_path h (eeprom_path options)
                (eeprom_size options) zero_save_file in
            if nonzero rc then
              cen64_alloc_cleanup ;;
              mret EXIT_FAILURE
            else
              let '(rc, sram, _) :=
                open_save_file_if_path h (sram_path options) 0x8000
                  zero_save_file in
              if nonzero rc then
                cen64_alloc_cleanup ;;
                mret EXIT_FAILURE
              else
                let '(rc, flashram, created) :=
                  open_save_file_if_path h (flashram_path options)
                    FLASHRAM_SIZE zero_save_file in
                if nonzero rc then
                  cen64_alloc_cleanup ;;
                  mret EXIT_FAILURE
                else
                  let flashram :=
                    if nonnull (flashram_path options) && nonzero created
                    then {| save_ptr :=
                              replicate (Z.to_nat FLASHRAM_SIZE) xff
                              ++ drop (Z.to_nat FLASHRAM_SIZE)
                                   (save_ptr flashram);
                            save_size := save_size flashram |}
                    else flashram in
                  status ← create_and_run h options ddipl ddrom pifrom cart
                             eeprom sram flashram controller ;
                  release_resources options ddipl ddrom pifrom cart ;;
                  mret status.

End Cen64.

(** ** Observations on runs, used in the statements of Part II *)

Module Observe.
Import Host.

(** The emulation thread has been joined. *)
Definition joined (w : world) : Prop := In ev_cen64_thread_join (trace w).

(** [m] neither adds nor removes the join of the emulation thread. *)
Definition join_neutral {A} (m : M A) : Prop :=
  forall w, joined (snd (m w)) <-> joined w.

(** From a world without a join, [m] returns [EXIT_SUCCESS] with the
    emulation thread joined, or [EXIT_FAILURE] without. *)
Definition decided (m : M Z) : Prop :=
  forall w, ~ joined w ->
    (fst (m w) = EXIT_SUCCESS /\ joined (snd (m w))) \/
    (fst (m w) = EXIT_FAILURE /\ ~ joined (snd (m w))).

Definition is_close_rom_file (e : event) : Prop :=
  match e with ev_close_rom_file _ => True | _ => False end.

End Observe.

(** ** rsp/opcodes_priv.h: the vector load and store entries *)

Module Rsp.

(** The names [x] for which the table uses [OPCODE_INFO_##x]. *)
Inductive opcode_info :=
| OPCODE_INFO_NONE
| OPCODE_INFO_VECTOR
| OPCODE_INFO_BRANCH
| OPCODE_INFO_NEEDRS
| OPCODE_INFO_NEEDRT
| OPCODE_INFO_NEEDVS
| OPCODE_INFO_NEEDVT
| OPCODE_INFO_LOAD
| OPCODE_INFO_STORE.

(** First argument of [RSP_BUILD_OP]: the opcode. *)
Inductive rsp_opcode_id :=
| ID_INVALID
| ID_LBV | ID_LDV | ID_LFV | ID_LHV | ID_LLV | ID_LPV | ID_LQV | ID_LRV
| ID_LSV | ID_LTV | ID_LUV
| ID_SBV | ID_SDV | ID_SFV | ID_SHV | ID_SLV | ID_SPV | ID_SQV | ID_SRV
| ID_SSV | ID_STV | ID_SUV | ID_SWV.

(** Second argument of [RSP_BUILD_OP]: the function that executes the
    opcode, among those the entries below name. *)
Inductive rsp_function :=
| FUNCTION_INVALID
| FUNCTION_BDLQSV_SBDLQSV.

(** Modelled from the spec: [RSP_BUILD_OP] is defined in [rsp/opcodes.h],
    which is not among the sources.  The spec has the decoded-operation
    record carry the opcode kind, the function kind and the info bitset:
    the three arguments of the macro. *)
Record rsp_opcode := RSP_BUILD_OP {
  id : rsp_opcode_id;
  func : rsp_function;
  info : Z
}.

Section Table.

(** The values of the constants [OPCODE_INFO_x], defined in
    [rsp/opcodes.h]. *)
Variable bits : opcode_info -> Z.

Definition INFO1 (x : opcode_info) : Z := bits x.
Definition INFO2 (x y : opcode_info) : Z := Z.lor (INFO1 x) (bits y).
Definition INFO3 (x y z : opcode_info) : Z := Z.lor (INFO2 x y) (bits z).
Definition INFO4 (x y z a : opcode_info) : Z := Z.lor (INFO3 x y z) (bits a).
Definition INFO5 (x y z a b : opcode_info) : Z :=
  Z.lor (INFO4 x y z a) (bits b).

Definition INVALID :=
  RSP_BUILD_OP ID_INVALID FUNCTION_INVALID (INFO1 OPCODE_INFO_NONE).

Definition LBV := RSP_BUILD_OP ID_LBV FUNCTION_BDLQSV_SBDLQSV
  (INFO3 OPCODE_INFO_NEEDRS OPCODE_INFO_NEEDVT OPCODE_INFO_LOAD).
Definition LDV := RSP_BUILD_OP ID_LDV FUNCTION_BDLQSV_SBDLQSV
  (INFO3 OPCODE_INFO_NEEDRS OPCODE_INFO_NEEDVT OPCODE_INFO_LOAD).
Definition LFV := RSP_BUILD_OP ID_LFV FUNCTION_INVALID (INFO1 OPCODE_INFO_NONE).
Definition LHV := RSP_BUILD_OP ID_LHV FUNCTION_INVALID (INFO1 OPCODE_INFO_NONE).
Definition LLV := RSP_BUILD_OP ID_LLV FUNCTION_BDLQSV_SBDLQSV
  (INFO3 OPCODE_INFO_NEEDRS OPCODE_INFO_NEEDVT OPCODE_INFO_LOAD).
Definition LPV := RSP_BUILD_OP ID_LPV FUNCTION_INVALID (INFO1 OPCODE_INFO_NONE).
Definition LQV := RSP_BUILD_OP ID_LQV FUNCTION_BDLQSV_SBDLQSV
  (INFO3 OPCODE_INFO_NEEDRS OPCODE_INFO_NEEDVT OPCODE_INFO_LOAD).
Definition LRV := RSP_BUILD_OP ID_LRV FUNCTION_INVALID (INFO1 OPCODE_INFO_NONE).
Definition LSV := RSP_BUILD_OP ID_LSV FUNCTION_BDLQSV_SBDLQSV
  (INFO3 OPCODE_INFO_NEEDRS OPCODE_INFO_NEEDVT OPCODE_INFO_LOAD).
Definition LTV := RSP_BUILD_OP ID_LTV FUNCTION_INVALID (INFO1 OPCODE_INFO_NONE).
Definition LUV := RSP_BUILD_OP ID_LUV FUNCTION_INVALID (INFO1 OPCODE_INFO_NONE).

Definition SBV := RSP_BUILD_OP ID_SBV FUNCTION_BDLQSV_SBDLQSV
  (INFO3 OPCODE_INFO_NEEDRS OPCODE_INFO_NEEDVT OPCODE_INFO_STORE).
Definition SDV := RSP_BUILD_OP ID_SDV FUNCTION_BDLQSV_SBDLQSV
  (INFO3 OPCODE_INFO_NEEDRS OPCODE_INFO_NEEDVT OPCODE_INFO_STORE).
Definition SFV := RSP_BUILD_OP ID_SFV FUNCTION_INVALID (INFO1 OPCODE_INFO_NONE).
Definition SHV := RSP_BUILD_OP ID_SHV FUNCTION_INVALID (INFO1 OPCODE_INFO_NONE).
Definition SLV := RSP_BUILD_OP ID_SLV FUNCTION_BDLQSV_SBDLQSV
  (INFO3 OPCODE_INFO_NEEDRS OPCODE_INFO_NEEDVT OPCODE_INFO_STORE).
Definition SPV := RSP_BUILD_OP ID_SPV FUNCTION_INVALID (INFO1 OPCODE_INFO_NONE).
Definition SQV := RSP_BUILD_OP ID_SQV FUNCTION_BDLQSV_SBDLQSV
  (INFO3 OPCODE_INFO_NEEDRS OPCODE_INFO_NEEDVT OPCODE_INFO_STORE).
Definition SRV := RSP_BUILD_OP ID_SRV FUNCTION_INVALID (INFO1 OPCODE_INFO_NONE).
Definition SSV := RSP_BUILD_OP ID_SSV FUNCTION_BDLQSV_SBDLQSV
  (INFO3 OPCODE_INFO_NEEDRS OPCODE_INFO_NEEDVT OPCODE_INFO_STORE).
Definition STV := RSP_BUILD_OP ID_STV FUNCTION_INVALID (INFO1 OPCODE_INFO_NONE).
Definition SUV := RSP_BUILD_OP ID_SUV FUNCTION_INVALID (INFO1 OPCODE_INFO_NONE).
Definition SWV := RSP_BUILD_OP ID_SWV FUNCTION_INVALID (INFO1 OPCODE_INFO_NONE).

(** The info bitset of [op] contains the flag [x]. *)
Definition has_info (op : rsp_opcode) (x : opcode_info) : Prop :=
  Z.land (info op) (bits x) = bits x.

(** The load variants and the store mirrors, in the order of the spec. *)
Definition vector_loads : list rsp_opcode :=
  [LBV; LSV; LLV; LDV; LQV; LRV; LPV; LUV; LHV; LFV; LTV].

Definition vector_stores : list rsp_opcode :=
  [SBV; SSV; SLV; SDV; SQV; SRV; SPV; SUV; SHV; SFV; STV; SWV].

(** The variants with an implementation, and those without. *)
Definition implemented_loads : list rsp_opcode := [LBV; LSV; LLV; LDV; LQV].
Definition implemented_stores : list rsp_opcode := [SBV; SSV; SLV; SDV; SQV].
Definition unimplemented : list rsp_opcode :=
  [LRV; LPV; LUV; LHV; LFV; LTV; SRV; SPV; SUV; SHV; SFV; STV; SWV].

(** Every load variant carries LOAD, NEEDRS and NEEDVT, every store mirror
    carries STORE, and none is executed by the INVALID function. *)
Definition all_variants_decoded : Prop :=
  Forall (fun op => has_info op OPCODE_INFO_LOAD /\
                    has_info op OPCODE_INFO_NEEDRS /\
                    has_info op OPCODE_INFO_NEEDVT /\
                    func op <> FUNCTION_INVALID) vector_loads /\
  Forall (fun op => has_info op OPCODE_INFO_STORE /\
                    func op <> FUNCTION_INVALID) vector_stores.

End Table.

End Rsp.

(** ** Sample hosts *)

Module Samples.
Import Host Cen64.

Definition sample_rom : rom_file :=
  {| rom_ptr := [x80; x37; x12; x40]; rom_size := 4 |}.

Definition sample_device : cen64_device :=
  {| dev_multithread := false; dev_running := false |}.

(** Options naming a DD IPL, a PIF ROM and a cart. *)
Definition sample_options : cen64_options :=
  {| ddipl_path := Some "ddipl.bin"; ddrom_path := None;
     pifrom_path := Some "pifrom.bin"; cart_path := Some "cart.z64";
     log_path := None; eeprom_path := None; eeprom_size := 0;
     sram_path := None; flashram_path := None;
     controller := replicate 4 zero_controller;
     no_audio := false; no_video := true; multithread := false |}.

(** A host where the cart DB check returns [db_ok], [cen64_alloc_init]
    returns [alloc_rc], every ROM opens except [missing], every SHA-1 is
    twenty zero bytes and the known sums are twenty bytes [sum], and
    everything else succeeds. *)
Definition sample_host (db_ok : bool) (alloc_rc : Z)
    (missing : option string) (sum : byte) : host :=
  {| fopen := fun _ _ => Some 3%nat;
     cart_db_is_well_formed := db_ok;
     cen64_alloc_init := alloc_rc;
     default_cen64_options := sample_options;
     parse_options := fun _ _ _ => (0, sample_options);
     open_rom_file := fun p =>
       if bool_decide (p = missing) then (1, zero_rom_file)
       else (0, sample_rom);
     sha1 := fun _ _ => replicate 20 x00;
     SHA1_SIZE := 20;
     sha1_dd_ipl := replicate 20 sum;
     sha1_pifrom_ntsc := replicate 20 sum;
     sha1_pifrom_ntsc_j := replicate 20 sum;
     sha1_pifrom_pal := replicate 20 sum;
     cart_db_get_entry := fun _ => None;
     open_save_file := fun _ _ => (0, zero_save_file, 0);
     open_gb_save := fun _ => (0, zero_save_file);
     cen64_alloc := Some sample_device;
     device_create := fun d _ _ _ _ _ _ _ _ _ _ => Some d;
     cen64_thread_create := 0 |}.

Definition good_host : host := sample_host true 0 (Some "absent") x00.
Definition bad_cart_db_host : host := sample_host false 0 (Some "absent") x00.
Definition alloc_init_fails_host : host :=
  sample_host true 1 (Some "absent") x00.
Definition missing_cart_host : host :=
  sample_host true 0 (Some "cart.z64") x00.
(** The ROMs open, no SHA-1 matches, and the cart is missing. *)
Definition bad_sha_missing_cart_host : host :=
  sample_host true 0 (Some "cart.z64") x01.
(** The ROMs open and no SHA-1 matches. *)
Definition bad_sha_host : host := sample_host true 0 (Some "absent") x01.
(** A host whose [fopen] fails. *)
Definition no_log_host : host :=
  {| fopen := fun _ _ => None;
     cart_db_is_well_formed := true;
     cen64_alloc_init := 0;
     default_cen64_options := sample_options;
     parse_options := fun _ _ _ => (0, sample_options);
     open_rom_file := fun _ => (0, sample_rom);
     sha1 := fun _ _ => replicate 20 x00;
     SHA1_SIZE := 20;
     sha1_dd_ipl := replicate 20 x00;
     sha1_pifrom_ntsc := replicate 20 x00;
     sha1_pifrom_ntsc_j := replicate 20 x00;
     sha1_pifrom_pal := replicate 20 x00;
     cart_db_get_entry := fun _ => None;
     open_save_file := fun _ _ => (0, zero_save_file, 0);
     open_gb_save := fun _ => (0, zero_save_file);
     cen64_alloc := Some sample_device;
     device_create := fun d _ _ _ _ _ _ _ _ _ _ => Some d;
     cen64_thread_create := 0 |}.

Definition sample_argv : list string := ["cen64"; "pifrom.bin"; "cart.z64"].

(** The constants [OPCODE_INFO_x] as consecutive bits, [NONE] as 0. *)
Definition sample_bits (x : Rsp.opcode_info) : Z :=
  match x with
  | Rsp.OPCODE_INFO_NONE => 0
  | Rsp.OPCODE_INFO_VECTOR => 0x1
  | Rsp.OPCODE_INFO_BRANCH => 0x2
  | Rsp.OPCODE_INFO_NEEDRS => 0x4
  | Rsp.OPCODE_INFO_NEEDRT => 0x8
  | Rsp.OPCODE_INFO_NEEDVS => 0x10
  | Rsp.OPCODE_INFO_NEEDVT => 0x20
  | Rsp.OPCODE_INFO_LOAD => 0x40
  | Rsp.OPCODE_INFO_STORE => 0x80
  end.

End Samples.

(** ** The cache as the C types have it *)

Module DcacheInv.
Import Dcache.

(** [metadata] holds a [uint32_t]. *)
Definition metadata_ok (l : vr4300_dcache_line) : Prop :=
  0 <= metadata l < 2 ^ 32.

(** A line as the C type has it: 16 data bytes and a 32-bit metadata word. *)
Definition line_wf (l : vr4300_dcache_line) : Prop :=
  length (data l) = LINE_SIZE /\ metadata_ok l.

(** A cache as the C type has it: 512 such lines. *)
Definition dcache_wf (dc : vr4300_dcache) : Prop :=
  dcache_ok dc /\ Forall line_wf (lines dc).

End DcacheInv.

(** ** The log as its clients use it *)

Module LogSpec.
Import Host Debug.

(** A use of [LOG]: the format and the arguments. *)
Definition log_use : Type := string * list printf_arg.

Definition LOG_uses (ms : list log_use) : list log_call :=
  map (fun m => do_LOG (fst m) (snd m)) ms.

(** What the uses write to the file [f]. *)
Definition log_records (f : FILE) (ms : list log_use) : list event :=
  map (fun m => ev_fprintf f (fst m) (snd m)) ms.

End LogSpec.

(** ** ROMs and paks: what the loaders are asked for *)

Module RomSpec.
Import Host Cen64.

(** The ROMs [load_roms] asks for, in its order: the path, and whether a
    [NULL] path means the ROM is not wanted. *)
Definition rom_requests (ddipl_path ddrom_path pifrom_path cart_path
    : option string) : list (option string * bool) :=
  [(ddipl_path, true); (ddrom_path, true); (pifrom_path, false);
   (cart_path, true)].

(** The request is made: the path is given, or the ROM is not optional. *)
Definition attempted (r : option string * bool) : bool :=
  negb (snd r) || nonnull (fst r).

Definition request_fails (h : host) (r : option string * bool) : bool :=
  attempted r && nonzero (fst (open_rom_file h (fst r))).

(** The position, counted from [n], of the first request that fails; 0
    when none does. *)
Fixpoint first_failure (h : host) (reqs : list (option string * bool))
    (n : Z) : Z :=
  match reqs with
  | [] => 0
  | r :: rs => if request_fails h r then n else first_failure h rs (n + 1)
  end.

(** The ROMs opened before the first request that fails. *)
Fixpoint opened_before_failure (h : host)
    (reqs : list (option string * bool)) : list rom_file :=
  match reqs with
  | [] => []
  | r :: rs =>
      if request_fails h r then []
      else (if attempted r then [snd (open_rom_file h (fst r))] else [])
           ++ opened_before_failure h rs
  end.

(** The arguments of the [close_rom_file] calls among [evs]. *)
Definition closed_roms (evs : list event) : list rom_file :=
  omap (fun e => match e with
                 | ev_close_rom_file f => Some f
                 | _ => None
                 end) evs.

(** Whether [load_paks] opens a file for the controller. *)
Definition has_pak_files (c : struct_controller) : bool :=
  bool_decide (pak c = PAK_MEM) && nonnull (mempak_path c)
  || bool_decide (pak c = PAK_TRANSFER).

(** The files of the controller's pak can be opened. *)
Definition pak_loads (h : host) (c : struct_controller) : bool :=
  if bool_decide (pak c = PAK_MEM) && nonnull (mempak_path c) then
    negb (nonzero (fst (fst (open_save_file h (mempak_path c) MEMPAK_SIZE))))
  else if bool_decide (pak c = PAK_TRANSFER) then
    (negb (nonnull (tpak_rom_path c))
     || negb (nonzero (fst (open_rom_file h (tpak_rom_path c)))))
    && (negb (nonnull (tpak_save_path c))
        || negb (nonzero (fst (open_gb_save h (tpak_save_path c)))))
  else true.

(** What [load_paks] reads of a controller. *)
Definition pak_keys (c : struct_controller)
  : pak_type * option string * option string * option string :=
  (pak c, mempak_path c, tpak_rom_path c, tpak_save_path c).

(** Entry [j] after [load_paks] against the entry before: unchanged, or
    a controller with pak files whose keys are as before. *)
Definition pak_entry_kept (o o' : option struct_controller) : Prop :=
  o' = o \/
  exists c c', o = Some c /\ o' = Some c' /\
               pak_keys c' = pak_keys c /\ has_pak_files c = true.

(** The files of the paks of controllers [i] to [i + n - 1] can be
    opened. *)
Definition paks_load (h : host) (cs : list struct_controller) (i n : nat)
  : bool :=
  forallb (fun j => pak_loads h (default zero_controller (cs !! j)))
          (seq i n).

End RomSpec.

(** ** Effects of the functions of [cen64.c] *)

Module Effects.
Import Host.

(** [m] leaves [log_fp] alone and appends to the trace events that all
    satisfy [P]. *)
Definition plain (P : event -> Prop) {A} (m : M A) : Prop :=
  forall w,
    log_fp (snd (m w)) = log_fp w /\
    exists evs, trace (snd (m w)) = trace w ++ evs /\ Forall P evs.

(** From a world whose [log_fp] satisfies [I], [m] reaches one whose
    [log_fp] satisfies [I], and appends to the trace events that all
    satisfy [P]. *)
Definition emits (I : option FILE -> Prop) (P : event -> Prop) {A}
    (m : M A) : Prop :=
  forall w,
    I (log_fp w) ->
    I (log_fp (snd (m w))) /\
    exists evs, trace (snd (m w)) = trace w ++ evs /\ Forall P evs.

Definition any_log : option FILE -> Prop := fun _ => True.
Definition log_open : option FILE -> Prop := fun fp => fp <> None.

Definition not_fclose (e : event) : Prop :=
  match e with ev_fclose _ => False | _ => True end.

Definition not_cleanup (e : event) : Prop :=
  match e with ev_cen64_alloc_cleanup => False | _ => True end.

(** [m] appends events that end with the one call of
    [cen64_alloc_cleanup]. *)
Definition ends_with_cleanup {A} (m : M A) : Prop :=
  forall w, exists evs,
    trace (snd (m w)) = trace w ++ evs ++ [ev_cen64_alloc_cleanup] /\
    Forall not_cleanup evs.

(** The events of each function of [cen64.c]. *)
Definition load_roms_event (e : event) : Prop :=
  match e with
  | ev_printf fmt _ =>
      In fmt ["Failed to load DD IPL ROM: %s.\n"; "Invalid SHA1 on DD IPL.\n";
              "Failed to load DD ROM: %s.\n"; "Failed to load PIF ROM: %s.\n";
              "Using NTSC-U PIFROM\n"; "Using NTSC-J PIFROM\n";
              "Using PAL PIFROM\n"; "Unknown or corrupted PIFROM: %s.\n";
              "Failed to load cart: %s.\n"]
  | ev_close_rom_file _ => True
  | _ => False
  end.

Definition load_paks_event (e : event) : Prop :=
  match e with
  | ev_printf fmt _ =>
      In fmt ["Can't open mempak file %s\n"; "Can't open transfer pak ROM\n";
              "No ROM supplied for transfer pak.\n";
              "The game will run but probably won't do anything interest\n";
              "Can't open transfer pak save\n";
              "No save supplied for transfer pak. Just FYI.\n"]
  | ev_controller_pak_format _ => True
  | ev_gb_init _ => True
  | _ => False
  end.

Definition run_event (e : event) : Prop :=
  match e with
  | ev_printf fmt _ =>
      In fmt ["Failed to allocate enough memory for a device.\n";
              "Failed to create a device.\n";
              "Failed to create the main emulation thread.\n"]
  | ev_device_destroy | ev_cen64_free | ev_cen64_gl_window_thread
  | ev_cen64_thread_join => True
  | _ => False
  end.

(** How often [device_destroy] is called among [evs], whether the
    emulation thread was joined, and whether its creation failed. *)
Definition is_destroy (e : event) : bool :=
  match e with ev_device_destroy => true | _ => false end.

Definition is_join (e : event) : bool :=
  match e with ev_cen64_thread_join => true | _ => false end.

Definition is_thread_failure (e : event) : bool :=
  match e with
  | ev_printf fmt _ =>
      String.eqb fmt "Failed to create the main emulation thread.\n"
  | _ => false
  end.

Definition count (p : event -> bool) (evs : list event) : nat :=
  length (List.filter p evs).

(** [device_destroy] is called twice when the thread could not be
    created, once when it was joined, and not at all otherwise. *)
Definition destroy_law (evs : list event) : Prop :=
  count is_destroy evs
  = if existsb is_thread_failure evs then 2%nat
    else if existsb is_join evs then 1%nat else 0%nat.

(** An event that is none of the three. *)
Definition outside_run (e : event) : Prop :=
  is_destroy e = false /\ is_thread_failure e = false /\ is_join e = false.

Definition destroys_by_law {A} (m : M A) : Prop :=
  forall w, exists evs,
    trace (snd (m w)) = trace w ++ evs /\ destroy_law evs.

End Effects.

(** ** rsp/opcodes_priv.h: the whole table *)

Module RspTable.

(** The macros of the table, that is the opcodes: the first argument of
    each [RSP_BUILD_OP] is the name of the macro it defines. *)
Inductive opcode :=
| INVALID | VINVALID | ADDIU | ADDU | AND | ANDI | BEQ | BGEZ | BGEZAL
| BGTZ | BLEZ | BLTZ | BLTZAL | BNE | BREAK | J | JAL | JALR | JR | LB | LBU
| LH | LHU | LUI | LW | NOP | NOR | OR | ORI | SB | SH | SLL | SLLV | SLT
| SLTI | SLTIU | SLTU | SRA | SRAV | SRL | SRLV | SUBU | SW | XOR | XORI
| MFC0 | MTC0 | CFC2 | CTC2 | MFC2 | MTC2 | VABS | VADD | VADDC | VAND | VCH
| VCL | VCR | VEQ | VGE | VLT | VMACF | VMACQ | VMACU | VMADH | VMADL
| VMADM | VMADN | VMOV | VMRG | VMUDH | VMUDL | VMUDM | VMUDN | VMULF
| VMULQ | VMULU | VNAND | VNE | VNOP | VNOR | VNXOR | VOR | VRCP | VRCPH
| VRCPL | VRNDN | VRNDP | VRSQ | VRSQH | VRSQL | VSAR | VSUB | VSUBC | VXOR
| LBV | LDV | LFV | LHV | LLV | LPV | LQV | LRV | LSV | LTV | LUV | SBV
| SDV | SFV | SHV | SLV | SPV | SQV | SRV | SSV | STV | SUV | SWV.

(** The second argument of [RSP_BUILD_OP]: the function that executes the
    opcode. *)
Inductive function :=
| FUNCTION_INVALID | FUNCTION_VINVALID | FUNCTION_ADDIU_LUI_SUBIU
| FUNCTION_ADDU_SUBU | FUNCTION_AND_OR_XOR | FUNCTION_ANDI_ORI_XORI
| FUNCTION_BEQ_BNE | FUNCTION_BGEZ_BLTZ | FUNCTION_BGEZAL_BLTZAL
| FUNCTION_BGTZ_BLEZ | FUNCTION_BREAK | FUNCTION_J_JAL | FUNCTION_JALR_JR
| FUNCTION_LOAD | FUNCTION_NOR | FUNCTION_STORE | FUNCTION_SLL_SLLV
| FUNCTION_SLT | FUNCTION_SLTI | FUNCTION_SLTIU | FUNCTION_SLTU
| FUNCTION_SRA | FUNCTION_SRAV | FUNCTION_SRL | FUNCTION_SRLV
| FUNCTION_MFC0 | FUNCTION_MTC0 | FUNCTION_CFC2 | FUNCTION_VABS
| FUNCTION_VADD | FUNCTION_VADDC | FUNCTION_VAND | FUNCTION_VCH
| FUNCTION_VCL | FUNCTION_VCR | FUNCTION_VEQ | FUNCTION_VGE | FUNCTION_VLT
| FUNCTION_VMADH | FUNCTION_VMADL | FUNCTION_VMADM | FUNCTION_VMADN
| FUNCTION_VMRG | FUNCTION_VMUDH | FUNCTION_VMUDL | FUNCTION_VMUDM
| FUNCTION_VMUDN | FUNCTION_VMULF | FUNCTION_VNAND | FUNCTION_VNE
| FUNCTION_VNOR | FUNCTION_VNXOR | FUNCTION_VOR | FUNCTION_VSAR
| FUNCTION_VSUB | FUNCTION_VSUBC | FUNCTION_VXOR | FUNCTION_BDLQSV_SBDLQSV.

(** Modelled from the spec: [RSP_BUILD_OP] is defined in [rsp/opcodes.h],
    which is not among the sources.  The spec has the decoded-operation
    record carry the opcode kind, the function kind and the info bitset.
    Here the bitset is the list of the names [x] whose constants
    [OPCODE_INFO_x] the entry ors together. *)
Record entry := RSP_BUILD_OP {
  id : opcode;
  func : function;
  info : list Rsp.opcode_info
}.

Definition INFO1 (x : Rsp.opcode_info) : list Rsp.opcode_info := [x].
Definition INFO2 (x y : Rsp.opcode_info) : list Rsp.opcode_info :=
  INFO1 x ++ [y].
Definition INFO3 (x y z : Rsp.opcode_info) : list Rsp.opcode_info :=
  INFO2 x y ++ [z].
Definition INFO4 (x y z a : Rsp.opcode_info) : list Rsp.opcode_info :=
  INFO3 x y z ++ [a].
Definition INFO5 (x y z a b : Rsp.opcode_info) : list Rsp.opcode_info :=
  INFO4 x y z a ++ [b].

Abbreviation NONE := Rsp.OPCODE_INFO_NONE (only parsing).
Abbreviation VECTOR := Rsp.OPCODE_INFO_VECTOR (only parsing).
Abbreviation BRANCH := Rsp.OPCODE_INFO_BRANCH (only parsing).
Abbreviation NEEDRS := Rsp.OPCODE_INFO_NEEDRS (only parsing).
Abbreviation NEEDRT := Rsp.OPCODE_INFO_NEEDRT (only parsing).
Abbreviation NEEDVS := Rsp.OPCODE_INFO_NEEDVS (only parsing).
Abbreviation NEEDVT := Rsp.OPCODE_INFO_NEEDVT (only parsing).
Abbreviation LOAD := Rsp.OPCODE_INFO_LOAD (only parsing).
Abbreviation STORE := Rsp.OPCODE_INFO_STORE (only parsing).

(** The [#define] of each opcode. *)
Definition table (op : opcode) : entry :=
  match op with
  | INVALID => RSP_BUILD_OP INVALID FUNCTION_INVALID (INFO1 NONE)
  | VINVALID => RSP_BUILD_OP VINVALID FUNCTION_VINVALID (INFO1 VECTOR)
  | ADDIU => RSP_BUILD_OP ADDIU FUNCTION_ADDIU_LUI_SUBIU (INFO1 NEEDRS)
  | ADDU => RSP_BUILD_OP ADDU FUNCTION_ADDU_SUBU (INFO2 NEEDRS NEEDRT)
  | AND => RSP_BUILD_OP AND FUNCTION_AND_OR_XOR (INFO2 NEEDRS NEEDRT)
  | ANDI => RSP_BUILD_OP ANDI FUNCTION_ANDI_ORI_XORI (INFO1 NEEDRS)
  | BEQ => RSP_BUILD_OP BEQ FUNCTION_BEQ_BNE (INFO3 BRANCH NEEDRS NEEDRT)
  | BGEZ => RSP_BUILD_OP BGEZ FUNCTION_BGEZ_BLTZ (INFO2 BRANCH NEEDRS)
  | BGEZAL => RSP_BUILD_OP BGEZAL FUNCTION_BGEZAL_BLTZAL (INFO2 BRANCH NEEDRS)
  | BGTZ => RSP_BUILD_OP BGTZ FUNCTION_BGTZ_BLEZ (INFO2 BRANCH NEEDRS)
  | BLEZ => RSP_BUILD_OP BLEZ FUNCTION_BGTZ_BLEZ (INFO2 BRANCH NEEDRS)
  | BLTZ => RSP_BUILD_OP BLTZ FUNCTION_BGEZ_BLTZ (INFO2 BRANCH NEEDRS)
  | BLTZAL => RSP_BUILD_OP BLTZAL FUNCTION_BGEZAL_BLTZAL (INFO2 BRANCH NEEDRS)
  | BNE => RSP_BUILD_OP BNE FUNCTION_BEQ_BNE (INFO3 BRANCH NEEDRS NEEDRT)
  | BREAK => RSP_BUILD_OP BREAK FUNCTION_BREAK (INFO1 NONE)
  | J => RSP_BUILD_OP J FUNCTION_J_JAL (INFO1 BRANCH)
  | JAL => RSP_BUILD_OP JAL FUNCTION_J_JAL (INFO1 BRANCH)
  | JALR => RSP_BUILD_OP JALR FUNCTION_JALR_JR (INFO2 BRANCH NEEDRS)
  | JR => RSP_BUILD_OP JR FUNCTION_JALR_JR (INFO2 BRANCH NEEDRS)
  | LB => RSP_BUILD_OP LB FUNCTION_LOAD (INFO2 NEEDRS LOAD)
  | LBU => RSP_BUILD_OP LBU FUNCTION_LOAD (INFO2 NEEDRS LOAD)
  | LH => RSP_BUILD_OP LH FUNCTION_LOAD (INFO2 NEEDRS LOAD)
  | LHU => RSP_BUILD_OP LHU FUNCTION_LOAD (INFO2 NEEDRS LOAD)
  | LUI => RSP_BUILD_OP LUI FUNCTION_ADDIU_LUI_SUBIU (INFO1 NONE)
  | LW => RSP_BUILD_OP LW FUNCTION_LOAD (INFO2 NEEDRS LOAD)
  | NOP => RSP_BUILD_OP NOP FUNCTION_INVALID (INFO1 NONE)
  | NOR => RSP_BUILD_OP NOR FUNCTION_NOR (INFO2 NEEDRS NEEDRT)
  | OR => RSP_BUILD_OP OR FUNCTION_AND_OR_XOR (INFO2 NEEDRS NEEDRT)
  | ORI => RSP_BUILD_OP ORI FUNCTION_ANDI_ORI_XORI (INFO1 NEEDRS)
  | SB => RSP_BUILD_OP SB FUNCTION_STORE (INFO3 NEEDRS NEEDRT STORE)
  | SH => RSP_BUILD_OP SH FUNCTION_STORE (INFO3 NEEDRS NEEDRT STORE)
  | SLL => RSP_BUILD_OP SLL FUNCTION_SLL_SLLV (INFO1 NEEDRT)
  | SLLV => RSP_BUILD_OP SLLV FUNCTION_SLL_SLLV (INFO2 NEEDRS NEEDRT)
  | SLT => RSP_BUILD_OP SLT FUNCTION_SLT (INFO2 NEEDRS NEEDRT)
  | SLTI => RSP_BUILD_OP SLTI FUNCTION_SLTI (INFO1 NEEDRS)
  | SLTIU => RSP_BUILD_OP SLTIU FUNCTION_SLTIU (INFO1 NEEDRS)
  | SLTU => RSP_BUILD_OP SLTU FUNCTION_SLTU (INFO2 NEEDRS NEEDRT)
  | SRA => RSP_BUILD_OP SRA FUNCTION_SRA (INFO1 NEEDRT)
  | SRAV => RSP_BUILD_OP SRAV FUNCTION_SRAV (INFO2 NEEDRS NEEDRT)
  | SRL => RSP_BUILD_OP SRL FUNCTION_SRL (INFO1 NEEDRT)
  | SRLV => RSP_BUILD_OP SRLV FUNCTION_SRLV (INFO2 NEEDRS NEEDRT)
  | SUBU => RSP_BUILD_OP SUBU FUNCTION_ADDU_SUBU (INFO1 NEEDRS)
  | SW => RSP_BUILD_OP SW FUNCTION_STORE (INFO3 NEEDRS NEEDRT STORE)
  | XOR => RSP_BUILD_OP XOR FUNCTION_AND_OR_XOR (INFO2 NEEDRS NEEDRT)
  | XORI => RSP_BUILD_OP XORI FUNCTION_ANDI_ORI_XORI (INFO1 NEEDRS)
  | MFC0 => RSP_BUILD_OP MFC0 FUNCTION_MFC0 (INFO1 NONE)
  | MTC0 => RSP_BUILD_OP MTC0 FUNCTION_MTC0 (INFO1 NEEDRT)
  | CFC2 => RSP_BUILD_OP CFC2 FUNCTION_CFC2 (INFO1 NONE)
  | CTC2 => RSP_BUILD_OP CTC2 FUNCTION_INVALID (INFO1 NONE)
  | MFC2 => RSP_BUILD_OP MFC2 FUNCTION_INVALID (INFO1 NONE)
  | MTC2 => RSP_BUILD_OP MTC2 FUNCTION_INVALID (INFO1 NONE)
  | VABS => RSP_BUILD_OP VABS FUNCTION_VABS (INFO3 VECTOR NEEDVS NEEDVT)
  | VADD => RSP_BUILD_OP VADD FUNCTION_VADD (INFO3 VECTOR NEEDVS NEEDVT)
  | VADDC => RSP_BUILD_OP VADDC FUNCTION_VADDC (INFO3 VECTOR NEEDVS NEEDVT)
  | VAND => RSP_BUILD_OP VAND FUNCTION_VAND (INFO3 VECTOR NEEDVS NEEDVT)
  | VCH => RSP_BUILD_OP VCH FUNCTION_VCH (INFO3 VECTOR NEEDVS NEEDVT)
  | VCL => RSP_BUILD_OP VCL FUNCTION_VCL (INFO3 VECTOR NEEDVS NEEDVT)
  | VCR => RSP_BUILD_OP VCR FUNCTION_VCR (INFO3 VECTOR NEEDVS NEEDVT)
  | VEQ => RSP_BUILD_OP VEQ FUNCTION_VEQ (INFO3 VECTOR NEEDVS NEEDVT)
  | VGE => RSP_BUILD_OP VGE FUNCTION_VGE (INFO3 VECTOR NEEDVS NEEDVT)
  | VLT => RSP_BUILD_OP VLT FUNCTION_VLT (INFO3 VECTOR NEEDVS NEEDVT)
  | VMACF => RSP_BUILD_OP VMACF FUNCTION_VINVALID (INFO1 VECTOR)
  | VMACQ => RSP_BUILD_OP VMACQ FUNCTION_VINVALID (INFO1 VECTOR)
  | VMACU => RSP_BUILD_OP VMACU FUNCTION_VINVALID (INFO1 VECTOR)
  | VMADH => RSP_BUILD_OP VMADH FUNCTION_VMADH (INFO3 VECTOR NEEDVS NEEDVT)
  | VMADL => RSP_BUILD_OP VMADL FUNCTION_VMADL (INFO3 VECTOR NEEDVS NEEDVT)
  | VMADM => RSP_BUILD_OP VMADM FUNCTION_VMADM (INFO3 VECTOR NEEDVS NEEDVT)
  | VMADN => RSP_BUILD_OP VMADN FUNCTION_VMADN (INFO3 VECTOR NEEDVS NEEDVT)
  | VMOV => RSP_BUILD_OP VMOV FUNCTION_VINVALID (INFO1 VECTOR)
  | VMRG => RSP_BUILD_OP VMRG FUNCTION_VMRG (INFO3 VECTOR NEEDVS NEEDVT)
  | VMUDH => RSP_BUILD_OP VMUDH FUNCTION_VMUDH (INFO3 VECTOR NEEDVS NEEDVT)
  | VMUDL => RSP_BUILD_OP VMUDL FUNCTION_VMUDL (INFO3 VECTOR NEEDVS NEEDVT)
  | VMUDM => RSP_BUILD_OP VMUDM FUNCTION_VMUDM (INFO3 VECTOR NEEDVS NEEDVT)
  | VMUDN => RSP_BUILD_OP VMUDN FUNCTION_VMUDN (INFO3 VECTOR NEEDVS NEEDVT)
  | VMULF => RSP_BUILD_OP VMULF FUNCTION_VMULF (INFO3 VECTOR NEEDVS NEEDVT)
  | VMULQ => RSP_BUILD_OP VMULQ FUNCTION_VINVALID (INFO1 VECTOR)
  | VMULU => RSP_BUILD_OP VMULU FUNCTION_VINVALID (INFO1 VECTOR)
  | VNAND => RSP_BUILD_OP VNAND FUNCTION_VNAND (INFO3 VECTOR NEEDVS NEEDVT)
  | VNE => RSP_BUILD_OP VNE FUNCTION_VNE (INFO3 VECTOR NEEDVS NEEDVT)
  | VNOP => RSP_BUILD_OP VNOP FUNCTION_VINVALID (INFO1 VECTOR)
  | VNOR => RSP_BUILD_OP VNOR FUNCTION_VNOR (INFO3 VECTOR NEEDVS NEEDVT)
  | VNXOR => RSP_BUILD_OP VNXOR FUNCTION_VNXOR (INFO3 VECTOR NEEDVS NEEDVT)
  | VOR => RSP_BUILD_OP VOR FUNCTION_VOR (INFO3 VECTOR NEEDVS NEEDVT)
  | VRCP => RSP_BUILD_OP VRCP FUNCTION_VINVALID (INFO1 VECTOR)
  | VRCPH => RSP_BUILD_OP VRCPH FUNCTION_VINVALID (INFO1 VECTOR)
  | VRCPL => RSP_BUILD_OP VRCPL FUNCTION_VINVALID (INFO1 VECTOR)
  | VRNDN => RSP_BUILD_OP VRNDN FUNCTION_VINVALID (INFO1 VECTOR)
  | VRNDP => RSP_BUILD_OP VRNDP FUNCTION_VINVALID (INFO1 VECTOR)
  | VRSQ => RSP_BUILD_OP VRSQ FUNCTION_VINVALID (INFO1 VECTOR)
  | VRSQH => RSP_BUILD_OP VRSQH FUNCTION_VINVALID (INFO1 VECTOR)
  | VRSQL => RSP_BUILD_OP VRSQL FUNCTION_VINVALID (INFO1 VECTOR)
  | VSAR => RSP_BUILD_OP VSAR FUNCTION_VSAR (INFO1 VECTOR)
  | VSUB => RSP_BUILD_OP VSUB FUNCTION_VSUB (INFO3 VECTOR NEEDVS NEEDVT)
  | VSUBC => RSP_BUILD_OP VSUBC FUNCTION_VSUBC (INFO3 VECTOR NEEDVS NEEDVT)
  | VXOR => RSP_BUILD_OP VXOR FUNCTION_VXOR (INFO3 VECTOR NEEDVS NEEDVT)
  | LBV => RSP_BUILD_OP LBV FUNCTION_BDLQSV_SBDLQSV (INFO3 NEEDRS NEEDVT LOAD)
  | LDV => RSP_BUILD_OP LDV FUNCTION_BDLQSV_SBDLQSV (INFO3 NEEDRS NEEDVT LOAD)
  | LFV => RSP_BUILD_OP LFV FUNCTION_INVALID (INFO1 NONE)
  | LHV => RSP_BUILD_OP LHV FUNCTION_INVALID (INFO1 NONE)
  | LLV => RSP_BUILD_OP LLV FUNCTION_BDLQSV_SBDLQSV (INFO3 NEEDRS NEEDVT LOAD)
  | LPV => RSP_BUILD_OP LPV FUNCTION_INVALID (INFO1 NONE)
  | LQV => RSP_BUILD_OP LQV FUNCTION_BDLQSV_SBDLQSV (INFO3 NEEDRS NEEDVT LOAD)
  | LRV => RSP_BUILD_OP LRV FUNCTION_INVALID (INFO1 NONE)
  | LSV => RSP_BUILD_OP LSV FUNCTION_BDLQSV_SBDLQSV (INFO3 NEEDRS NEEDVT LOAD)
  | LTV => RSP_BUILD_OP LTV FUNCTION_INVALID (INFO1 NONE)
  | LUV => RSP_BUILD_OP LUV FUNCTION_INVALID (INFO1 NONE)
  | SBV => RSP_BUILD_OP SBV FUNCTION_BDLQSV_SBDLQSV (INFO3 NEEDRS NEEDVT STORE)
  | SDV => RSP_BUILD_OP SDV FUNCTION_BDLQSV_SBDLQSV (INFO3 NEEDRS NEEDVT STORE)
  | SFV => RSP_BUILD_OP SFV FUNCTION_INVALID (INFO1 NONE)
  | SHV => RSP_BUILD_OP SHV FUNCTION_INVALID (INFO1 NONE)
  | SLV => RSP_BUILD_OP SLV FUNCTION_BDLQSV_SBDLQSV (INFO3 NEEDRS NEEDVT STORE)
  | SPV => RSP_BUILD_OP SPV FUNCTION_INVALID (INFO1 NONE)
  | SQV => RSP_BUILD_OP SQV FUNCTION_BDLQSV_SBDLQSV (INFO3 NEEDRS NEEDVT STORE)
  | SRV => RSP_BUILD_OP SRV FUNCTION_INVALID (INFO1 NONE)
  | SSV => RSP_BUILD_OP SSV FUNCTION_BDLQSV_SBDLQSV (INFO3 NEEDRS NEEDVT STORE)
  | STV => RSP_BUILD_OP STV FUNCTION_INVALID (INFO1 NONE)
  | SUV => RSP_BUILD_OP SUV FUNCTION_INVALID (INFO1 NONE)
  | SWV => RSP_BUILD_OP SWV FUNCTION_INVALID (INFO1 NONE)
  end.

(** The value of an info bitset, given the values [bits] of the constants
    [OPCODE_INFO_x]: [INFOn(x, y, ...)] is [((x | y) | ...)]. *)
Definition info_value (bits : Rsp.opcode_info -> Z)
    (l : list Rsp.opcode_info) : Z :=
  match l with
  | [] => 0
  | x :: l' => fold_left (fun acc y => Z.lor acc (bits y)) l' (bits x)
  end.

End RspTable.

(** ** The steps of [cen64_main] *)

Module ExitSpec.
Import Host Debug Cen64 RomSpec.

(** The steps of [cen64_main] that can fail, in the order it takes them. *)
Inductive phase :=
| cart_db_validation
| allocator_init
| option_parsing
| rom_loading
| log_file_opening
| pak_loading
| save_file_opening
| device_allocation
| device_creation
| thread_creation.

(** The exit code for the step that failed, if one did. *)
Definition exit_code (failed : option phase) : Z :=
  match failed with
  | Some _ => EXIT_FAILURE
  | None => EXIT_SUCCESS
  end.

(** [m] returns [a], whatever the world it runs in. *)
Definition value {A} (m : M A) (a : A) : Prop := forall w, fst (m w) = a.

(** The options [cen64_main] hands to [parse_options]: the defaults, with
    the array of four zeroed controllers. *)
Definition initial_options (h : host) : cen64_options :=
  let d := default_cen64_options h in
  {| ddipl_path := ddipl_path d; ddrom_path := ddrom_path d;
     pifrom_path := pifrom_path d; cart_path := cart_path d;
     log_path := log_path d; eeprom_path := eeprom_path d;
     eeprom_size := eeprom_size d; sram_path := sram_path d;
     flashram_path := flashram_path d;
     controller := replicate 4 zero_controller;
     no_audio := no_audio d; no_video := no_video d;
     multithread := multithread d |}.

Section Phases.

Variable h : host.
(** The options as [parse_options] leaves them. *)
Variable o : cen64_options.

(** A ROM that is asked for does not open. *)
Definition roms_fail : bool :=
  nonzero (first_failure h (rom_requests (ddipl_path o) (ddrom_path o)
                              (pifrom_path o) (cart_path o)) 1).

(** A log file is asked for and [fopen] returns [NULL]. *)
Definition log_fails : bool :=
  match log_path o with
  | Some path => negb (nonnull (fopen h path "w"))
  | None => false
  end.

(** A pak file of one of the four controllers does not open. *)
Definition paks_fail : bool := negb (paks_load h (controller o) 0 4).

(** What [open_save_file] returns for the three saves; a save without a
    path is not opened. *)
Definition eeprom_file : Z * save_file * Z :=
  open_save_file_if_path h (eeprom_path o) (eeprom_size o) zero_save_file.

Definition sram_file : Z * save_file * Z :=
  open_save_file_if_path h (sram_path o) 0x8000 zero_save_file.

Definition flashram_file : Z * save_file * Z :=
  open_save_file_if_path h (flashram_path o) FLASHRAM_SIZE zero_save_file.

Definition saves_fail : bool :=
  nonzero (fst (fst eeprom_file)) || nonzero (fst (fst sram_file))
  || nonzero (fst (fst flashram_file)).

(** What [device_create] is given once every file is open: the ROMs and
    saves as opened, the FlashRAM filled with [0xFF] when it was created,
    and the controllers as [load_paks] leaves them. *)
Definition loaded_rom (path : option string) : rom_file :=
  snd (open_rom_file_if_path h path zero_rom_file).

Definition flashram_given : save_file :=
  let f := snd (fst flashram_file) in
  if nonnull (flashram_path o) && nonzero (snd flashram_file)
  then {| save_ptr := replicate (Z.to_nat FLASHRAM_SIZE) xff
                      ++ drop (Z.to_nat FLASHRAM_SIZE) (save_ptr f);
          save_size := save_size f |}
  else f.

Definition controllers_given : list struct_controller :=
  snd (fst (load_paks h (controller o) init_world)).

Definition device_created (device : cen64_device) : option cen64_device :=
  device_create h device
    (loaded_rom (ddipl_path o)) (loaded_rom (ddrom_path o))
    (snd (open_rom_file h (pifrom_path o))) (loaded_rom (cart_path o))
    (snd (fst eeprom_file)) (snd (fst sram_file)) flashram_given
    controllers_given (no_audio o) (no_video o).

(** The first step that fails once the ROMs, the log, the paks and the
    saves are open. *)
Definition failed_in_run
    (created : cen64_device -> option cen64_device) : option phase :=
  match cen64_alloc h with
  | None => Some device_allocation
  | Some device =>
      match created device with
      | None => Some device_creation
      | Some _ =>
          if nonzero (cen64_thread_create h) then Some thread_creation
          else None
      end
  end.

(** The first step that fails once the options are parsed. *)
Definition failed_after_options : option phase :=
  if roms_fail then Some rom_loading
  else if log_fails then Some log_file_opening
  else if paks_fail then Some pak_loading
  else if saves_fail then Some save_file_opening
  else failed_in_run device_created.

End Phases.

(** The first step of [cen64_main] that fails, read off what the host
    functions return; [None] when no step fails, which includes the run
    with [argc < 3] that only prints the usage. *)
Definition failed_phase (h : host) (argc : Z) (argv : list string)
  : option phase :=
  if negb (cart_db_is_well_formed h) then Some cart_db_validation
  else if nonzero (cen64_alloc_init h) then Some allocator_init
  else if argc <? 3 then None
  else
    let '(rc, o) :=
      parse_options h (initial_options h) (argc - 1) (drop 1 argv) in
    if nonzero rc then Some option_parsing
    else failed_after_options h o.

(** For each step, a host on which that step is the first to fail: the
    options name a log file, a memory pak and an EEPROM, and every call
    succeeds but the one of the step. *)
#[global] Instance phase_eq_dec : EqDecision phase.
Proof. solve_decision. Defined.

Definition pak_controller : struct_controller :=
  {| pak := PAK_MEM;
     mempak_path := Some "mempak.bin"; mempak_save := zero_save_file;
     tpak_rom_path := None; tpak_rom := zero_rom_file;
     tpak_save_path := None; tpak_save := zero_save_file |}.

Definition full_options : cen64_options :=
  {| ddipl_path := None; ddrom_path := None;
     pifrom_path := Some "pifrom.bin"; cart_path := Some "cart.z64";
     log_path := Some "cen64.log"; eeprom_path := Some "eeprom.bin";
     eeprom_size := 0x200; sram_path := None; flashram_path := None;
     controller := pak_controller :: replicate 3 zero_controller;
     no_audio := false; no_video := true; multithread := false |}.

Definition failing_host (p : phase) : host :=
  let rc (q : phase) : Z := if bool_decide (p = q) then 1 else 0 in
  let device := {| dev_multithread := false; dev_running := false |} in
  {| fopen := fun _ _ =>
       if bool_decide (p = log_file_opening) then None else Some 3%nat;
     cart_db_is_well_formed := negb (bool_decide (p = cart_db_validation));
     cen64_alloc_init := rc allocator_init;
     default_cen64_options := full_options;
     parse_options := fun _ _ _ => (rc option_parsing, full_options);
     open_rom_file := fun _ =>
       (rc rom_loading, {| rom_ptr := [x80; x37; x12; x40]; rom_size := 4 |});
     sha1 := fun _ _ => replicate 20 x00;
     SHA1_SIZE := 20;
     sha1_dd_ipl := replicate 20 x00;
     sha1_pifrom_ntsc := replicate 20 x00;
     sha1_pifrom_ntsc_j := replicate 20 x00;
     sha1_pifrom_pal := replicate 20 x00;
     cart_db_get_entry := fun _ => None;
     open_save_file := fun path _ =>
       (if bool_decide (path = Some "mempak.bin") then rc pak_loading
        else rc save_file_opening, zero_save_file, 0);
     open_gb_save := fun _ => (0, zero_save_file);
     cen64_alloc :=
       if bool_decide (p = device_allocation) then None else Some device;
     device_create := fun d _ _ _ _ _ _ _ _ _ _ =>
       if bool_decide (p = device_creation) then None else Some d;
     cen64_thread_create := rc thread_creation |}.

End ExitSpec.

(** ** The info bitsets of the table *)

Module RspFlags.
Import RspTable.

#[global] Instance opcode_info_eq_dec : EqDecision Rsp.opcode_info.
Proof. solve_decision. Defined.

(** The constants the table names. *)
Definition all_flags : list Rsp.opcode_info :=
  [NONE; VECTOR; BRANCH; NEEDRS; NEEDRT; NEEDVS; NEEDVT; LOAD; STORE].

(** No other constant has a bit of [x]. *)
Definition private (bits : Rsp.opcode_info -> Z) (x : Rsp.opcode_info)
  : bool :=
  forallb (fun y => bool_decide (y = x) || (Z.land (bits y) (bits x) =? 0))
          all_flags.

(** The bitset [v] has a bit of the constant [x]; it has all of them; it
    has no bit outside [u]. *)
Definition carries (bits : Rsp.opcode_info -> Z) (v : Z)
    (x : Rsp.opcode_info) : Prop :=
  Z.land v (bits x) <> 0.

Definition contains (bits : Rsp.opcode_info -> Z) (v : Z)
    (x : Rsp.opcode_info) : Prop :=
  Z.land v (bits x) = bits x.

Definition within (v u : Z) : Prop := Z.land v u = v.

(** An assignment in which the constants overlap: [NEEDVS] and [NEEDVT]
    hold the bit of [VECTOR] next to those of [NEEDRS] and [NEEDRT]. *)
Definition overlapping_bits (x : Rsp.opcode_info) : Z :=
  match x with
  | Rsp.OPCODE_INFO_NONE => 0
  | Rsp.OPCODE_INFO_VECTOR => 0x2
  | Rsp.OPCODE_INFO_BRANCH => 0x80000000
  | Rsp.OPCODE_INFO_NEEDRS => 0x8
  | Rsp.OPCODE_INFO_NEEDRT => 0x10
  | Rsp.OPCODE_INFO_NEEDVS => 0xA
  | Rsp.OPCODE_INFO_NEEDVT => 0x12
  | Rsp.OPCODE_INFO_LOAD => 0x20
  | Rsp.OPCODE_INFO_STORE => 0x40
  end.

End RspFlags.

(* ================================================================== *)
(** * Part II: properties *)
(* ================================================================== *)

(** ** Bit-level facts about the metadata word *)

Section MetadataBits.

Lemma testbit_below_4096 k n :
  0 <= k < 4096 -> 12 <= n -> Z.testbit k n = false.
Proof.
  intros Hk Hn. destruct (Z.eq_dec k 0) as [->|Hnz].
  - apply Z.testbit_0_l.
  - apply Z.bits_above_log2; [lia|].
    assert (Z.log2 k < 12) by (apply Z.log2_lt_pow2; lia). lia.
Qed.

Lemma testbit_tag_field t n :
  0 <= n ->
  Z.testbit (u32 (Z.shiftl t 12)) n
  = (n <? 32) && (12 <=? n) && Z.testbit t (n - 12).
Proof.
  intros Hn. unfold u32. rewrite Z.testbit_mod_pow2 by lia.
  rewrite Z.shiftl_spec by lia.
  destruct (12 <=? n) eqn:E.
  - now rewrite andb_true_r.
  - rewrite andb_false_r, Z.testbit_neg_r by lia. now rewrite andb_false_r.
Qed.

(** Masking a metadata word with a constant below [2^12] reads its flags. *)
Lemma metadata_flags t b k :
  0 <= b < 4096 -> 0 <= k < 4096 ->
  Z.land (Z.lor (u32 (Z.shiftl t 12)) b) k = Z.land b k.
Proof.
  intros Hb Hk. apply Z.bits_inj'. intros n Hn.
  rewrite !Z.land_spec, Z.lor_spec, testbit_tag_field by lia.
  destruct (12 <=? n) eqn:E.
  - rewrite (testbit_below_4096 k n) by lia. now rewrite !andb_false_r.
  - now rewrite andb_false_r.
Qed.

(** Only the low 20 bits of a tag come back out of the metadata word. *)
Lemma metadata_tag t b :
  0 <= b < 4096 ->
  Z.shiftr (Z.lor (u32 (Z.shiftl t 12)) b) 12 = t mod 2 ^ 20.
Proof.
  intros Hb. apply Z.bits_inj'. intros n Hn.
  rewrite Z.shiftr_spec, Z.lor_spec, testbit_tag_field by lia.
  rewrite (testbit_below_4096 b (n + 12)) by lia.
  rewrite Z.testbit_mod_pow2 by lia.
  replace (n + 12 - 12) with n by lia.
  replace (12 <=? n + 12) with true by lia.
  replace (n + 12 <? 32) with (n <? 20) by lia.
  now rewrite orb_false_r, andb_true_r.
Qed.

(** [metadata &= ~k] for a flag mask [k] leaves the tag field alone. *)
Lemma metadata_clear t b k :
  0 <= b < 4096 -> 0 <= k < 4096 ->
  Z.land (Z.lor (u32 (Z.shiftl t 12)) b) (u32 (Z.lnot k))
  = Z.lor (u32 (Z.shiftl t 12)) (Z.land b (Z.lnot k)).
Proof.
  intros Hb Hk. apply Z.bits_inj'. intros n Hn.
  rewrite !Z.land_spec, !Z.lor_spec, Z.land_spec, testbit_tag_field by lia.
  unfold u32. rewrite Z.testbit_mod_pow2, Z.lnot_spec by lia.
  destruct (12 <=? n) eqn:E.
  - rewrite (testbit_below_4096 k n), (testbit_below_4096 b n) by lia.
    destruct (n <? 32); simpl; btauto.
  - replace (n <? 32) with true by lia. reflexivity.
Qed.

Lemma land_valid_bit_cleared m : Z.land (Z.land m (u32 (Z.lnot 0x1))) 0x1 = 0.
Proof. rewrite <- Z.land_assoc. change (Z.land _ 1) with 0. apply Z.land_0_r. Qed.

End MetadataBits.

(** ** The data cache *)

Section DcacheFacts.
Import Dcache.

Lemma get_line_lt vaddr : (get_line vaddr < NUM_LINES)%nat.
Proof.
  unfold get_line, NUM_LINES.
  assert (H : 0 <= Z.land (Z.shiftr vaddr 4) 0x1FF < 512).
  { change 0x1FF with (Z.ones 9). rewrite Z.land_ones by lia.
    apply Z.mod_pos_bound. lia. }
  lia.
Qed.

Lemma get_line_index vaddr :
  Z.of_nat (get_line vaddr) = Z.land (Z.shiftr vaddr 4) 0x1FF.
Proof.
  unfold get_line. apply Z2Nat.id.
  change 0x1FF with (Z.ones 9). rewrite Z.land_ones by lia.
  apply Z.mod_pos_bound. lia.
Qed.

Lemma deref_store_eq dc p l :
  (p < length (lines dc))%nat -> deref (store dc p l) p = l.
Proof.
  intros Hp. unfold deref, store. cbn [lines].
  now rewrite list_lookup_insert_eq.
Qed.

Lemma deref_store_ne dc p q l : p <> q -> deref (store dc p l) q = deref dc q.
Proof.
  intros Hne. unfold deref, store. cbn [lines].
  now rewrite list_lookup_insert_ne.
Qed.

Lemma store_ok dc p l : dcache_ok dc -> dcache_ok (store dc p l).
Proof. unfold dcache_ok, store. cbn [lines]. now rewrite length_insert. Qed.

Lemma deref_store_at dc vaddr l :
  dcache_ok dc -> deref (store dc (get_line vaddr) l) (get_line vaddr) = l.
Proof.
  intros Hok. apply deref_store_eq. rewrite Hok. apply get_line_lt.
Qed.

Lemma is_valid_invalidate_line l : is_valid (invalidate_line l) = false.
Proof.
  unfold is_valid, invalidate_line. cbn [metadata].
  now rewrite land_valid_bit_cleared.
Qed.

(** The line [vr4300_dcache_fill] leaves behind. *)
Lemma fill_line dc vaddr paddr src :
  dcache_ok dc ->
  deref (vr4300_dcache_fill dc vaddr paddr src) (get_line vaddr)
  = {| data := take LINE_SIZE src;
       metadata := Z.lor (u32 (Z.shiftl (Z.shiftr paddr 4) 12)) 0x1 |}.
Proof.
  intros Hok. unfold vr4300_dcache_fill. rewrite deref_store_at by exact Hok.
  unfold set_clean, validate_line, memcpy_data. cbn [data metadata].
  f_equal. rewrite metadata_clear by lia. reflexivity.
Qed.

Lemma fill_ok dc vaddr paddr src :
  dcache_ok dc -> dcache_ok (vr4300_dcache_fill dc vaddr paddr src).
Proof. intros Hok. unfold vr4300_dcache_fill. now apply store_ok. Qed.

Lemma fill_tag dc vaddr paddr src :
  dcache_ok dc ->
  vr4300_dcache_get_tag
    (deref (vr4300_dcache_fill dc vaddr paddr src) (get_line vaddr))
  = Z.shiftr paddr 4 mod 2 ^ 20.
Proof.
  intros Hok. rewrite fill_line by exact Hok.
  unfold vr4300_dcache_get_tag, get_tag. cbn [metadata].
  apply metadata_tag. lia.
Qed.

(** Below 16 MiB the fill / probe law of the spec holds. *)
Lemma fill_probe_below_16MiB dc vaddr paddr src :
  dcache_ok dc -> length src = LINE_SIZE -> 0 <= paddr < 2 ^ 24 ->
  let dc' := vr4300_dcache_fill dc vaddr paddr src in
  let p := get_line vaddr in
  vr4300_dcache_probe dc' vaddr paddr = Some p /\
  Z.of_nat p = Z.land (Z.shiftr vaddr 4) 0x1FF /\
  data (deref dc' p) = src /\
  vr4300_dcache_get_tag (deref dc' p) = Z.shiftr paddr 4 /\
  is_valid (deref dc' p) = true /\
  is_dirty (deref dc' p) = false.
Proof.
  intros Hok Hlen Hp dc' p.
  assert (Htag : vr4300_dcache_get_tag (deref dc' p) = Z.shiftr paddr 4).
  { subst dc' p. rewrite fill_tag by exact Hok.
    apply Z.mod_small. rewrite Z.shiftr_div_pow2 by lia.
    split; [apply Z.div_pos; lia | apply Z.div_lt_upper_bound; lia]. }
  assert (Hline := fill_line dc vaddr paddr src Hok).
  fold dc' p in Hline.
  assert (Hvalid : is_valid (deref dc' p) = true).
  { rewrite Hline. unfold is_valid. cbn [metadata].
    rewrite metadata_flags by lia. reflexivity. }
  repeat split.
  - unfold vr4300_dcache_probe, get_line_const. fold (get_line vaddr). fold p.
    unfold vr4300_dcache_get_tag in Htag. rewrite Htag, Hvalid, Z.eqb_refl.
    reflexivity.
  - apply get_line_index.
  - rewrite Hline. cbn [data]. apply take_ge. lia.
  - exact Htag.
  - exact Hvalid.
  - rewrite Hline. unfold is_dirty. cbn [metadata].
    rewrite metadata_flags by lia. reflexivity.
Qed.

Lemma fill_probe_below_16MiB_example :
  dcache_ok empty_dcache /\ length sample_block = LINE_SIZE /\
  0 <= 0x1000 < 2 ^ 24 /\
  vr4300_dcache_probe
    (vr4300_dcache_fill empty_dcache 0x80001000 0x1000 sample_block)
    0x80001000 0x1000 = Some 256%nat.
Proof.
  assert (Hok : dcache_ok empty_dcache) by reflexivity.
  assert (Hlen : length sample_block = LINE_SIZE) by reflexivity.
  assert (Hp : 0 <= 0x1000 < 2 ^ 24) by lia.
  split; [exact Hok|]. split; [exact Hlen|]. split; [exact Hp|].
  exact (proj1 (fill_probe_below_16MiB empty_dcache 0x80001000 0x1000
                  sample_block Hok Hlen Hp)).
Defined.

(** C1.  [vr4300_dcache_fill] followed by [vr4300_dcache_probe] at the same
    addresses does not hit when the physical address is 16 MiB or more:
    [paddr >> 4] has up to 28 bits, [tag << 12] keeps the low 20 of them in
    a 32-bit word, and the probe compares the 20-bit stored tag with the
    full [paddr >> 4].  The stored tag is [(paddr >> 4) mod 2^20], not
    [paddr >> 4], and the probe returns [NULL]. *)
Theorem fill_probe_misses_from_16MiB dc vaddr paddr src :
  dcache_ok dc -> 2 ^ 24 <= paddr < 2 ^ 32 ->
  let dc' := vr4300_dcache_fill dc vaddr paddr src in
  vr4300_dcache_probe dc' vaddr paddr = None /\
  vr4300_dcache_get_tag (deref dc' (get_line vaddr))
    = Z.shiftr paddr 4 mod 2 ^ 20 /\
  vr4300_dcache_get_tag (deref dc' (get_line vaddr)) <> Z.shiftr paddr 4.
Proof.
  intros Hok Hp dc'.
  assert (Htag := fill_tag dc vaddr paddr src Hok). fold dc' in Htag.
  assert (Hne : Z.shiftr paddr 4 mod 2 ^ 20 <> Z.shiftr paddr 4).
  { rewrite Z.shiftr_div_pow2 by lia.
    assert (2 ^ 20 <= paddr / 2 ^ 4) by (apply Z.div_le_lower_bound; lia).
    assert (0 <= (paddr / 2 ^ 4) mod 2 ^ 20 < 2 ^ 20)
      by (apply Z.mod_pos_bound; lia).
    lia. }
  repeat split.
  - unfold vr4300_dcache_probe, get_line_const. fold (get_line vaddr).
    unfold vr4300_dcache_get_tag in Htag. rewrite Htag.
    apply Z.eqb_neq in Hne. rewrite Hne. reflexivity.
  - exact Htag.
  - rewrite Htag. exact Hne.
Qed.

Lemma fill_probe_misses_from_16MiB_cart_rom :
  dcache_ok empty_dcache /\ 2 ^ 24 <= 0x10000000 < 2 ^ 32 /\
  vr4300_dcache_probe
    (vr4300_dcache_fill empty_dcache 0x90000000 0x10000000 sample_block)
    0x90000000 0x10000000 = None.
Proof.
  assert (Hok : dcache_ok empty_dcache) by reflexivity.
  assert (Hp : 2 ^ 24 <= 0x10000000 < 2 ^ 32) by lia.
  split; [exact Hok|]. split; [exact Hp|].
  exact (proj1 (fill_probe_misses_from_16MiB empty_dcache 0x90000000
                  0x10000000 sample_block Hok Hp)).
Defined.

(** C2.  [vr4300_dcache_wb_invalidate] on a valid, dirty line sends nothing
    to memory.  Before the call [vr4300_dcache_should_flush_line] reports
    the line; after it the blocks written are those written before, the
    line is invalid with its bytes still in the array, and
    [vr4300_dcache_should_flush_line] reports nothing: the dirty bytes are
    dropped. *)
Theorem wb_invalidate_writes_nothing m vaddr :
  dcache_ok (m_dcache m) ->
  is_valid (deref (m_dcache m) (get_line vaddr)) = true ->
  is_dirty (deref (m_dcache m) (get_line vaddr)) = true ->
  let m' := run_wb_invalidate m vaddr in
  m_written m' = m_written m /\
  is_valid (deref (m_dcache m') (get_line vaddr)) = false /\
  data (deref (m_dcache m') (get_line vaddr))
    = data (deref (m_dcache m) (get_line vaddr)) /\
  vr4300_dcache_should_flush_line (m_dcache m) vaddr
    = Some (get_line vaddr) /\
  vr4300_dcache_should_flush_line (m_dcache m') vaddr = None.
Proof.
  intros Hok Hv Hd m'. subst m'. unfold run_wb_invalidate.
  cbn [m_dcache m_written].
  unfold vr4300_dcache_should_flush_line, vr4300_dcache_wb_invalidate.
  rewrite Hv, Hd, deref_store_at by exact Hok.
  rewrite is_valid_invalidate_line, andb_false_r.
  repeat split.
Qed.

Lemma wb_invalidate_writes_nothing_dirty_line :
  let m := {| m_dcache := dirty_dcache; m_written := [] |} in
  dcache_ok (m_dcache m) /\
  is_valid (deref (m_dcache m) (get_line 0)) = true /\
  is_dirty (deref (m_dcache m) (get_line 0)) = true /\
  m_written (run_wb_invalidate m 0) = [].
Proof.
  intros m.
  assert (Hok : dcache_ok (m_dcache m)) by reflexivity.
  assert (Hv : is_valid (deref (m_dcache m) (get_line 0)) = true)
    by reflexivity.
  assert (Hd : is_dirty (deref (m_dcache m) (get_line 0)) = true)
    by reflexivity.
  split; [exact Hok|]. split; [exact Hv|]. split; [exact Hd|].
  exact (proj1 (wb_invalidate_writes_nothing m 0 Hok Hv Hd)).
Defined.

(** C3.  After [vr4300_dcache_wb_invalidate(dcache, vaddr)],
    [vr4300_dcache_probe(dcache, vaddr, paddr)] returns [NULL], for every
    cache, every [vaddr] and every [paddr]. *)
Theorem wb_invalidate_probe_miss dc vaddr paddr :
  vr4300_dcache_probe (vr4300_dcache_wb_invalidate dc vaddr) vaddr paddr
  = None.
Proof.
  unfold vr4300_dcache_probe, get_line_const. fold (get_line vaddr).
  unfold vr4300_dcache_wb_invalidate.
  destruct (is_valid (deref dc (get_line vaddr))) eqn:Hv.
  - destruct (decide (get_line vaddr < length (lines dc))%nat) as [Hlt|Hge].
    + rewrite deref_store_eq by exact Hlt.
      now rewrite is_valid_invalidate_line, andb_false_r.
    + exfalso. unfold deref in Hv.
      rewrite lookup_ge_None_2 in Hv by lia. discriminate Hv.
  - now rewrite Hv, andb_false_r.
Qed.

(** C8, as the code has it.  [vr4300_dcache_set_tag] turns the metadata of
    the addressed line into [(tag << 12) | (old valid bit)], the shift taken
    in [uint32_t]: the valid bit is as before, the dirty bit is clear
    whatever it was, the data bytes are as before, and no other line
    changes.  The tag read back is the low 20 bits of [tag]: it is [tag]
    exactly when [tag] is below [2 ^ 20]. *)
Theorem set_tag_clears_dirty dc vaddr tag :
  dcache_ok dc ->
  let old := deref dc (get_line vaddr) in
  let dc' := vr4300_dcache_set_tag dc vaddr tag in
  let new := deref dc' (get_line vaddr) in
  metadata new = Z.lor (u32 (Z.shiftl tag 12)) (Z.land (metadata old) 0x1) /\
  is_valid new = is_valid old /\
  is_dirty new = false /\
  vr4300_dcache_get_tag new = tag mod 2 ^ 20 /\
  data new = data old /\
  (forall p, p <> get_line vaddr -> deref dc' p = deref dc p) /\
  (vr4300_dcache_get_tag new = tag <-> 0 <= tag < 2 ^ 20).
Proof.
  intros Hok old dc' new.
  assert (Hnew : new = set_tag old tag).
  { subst new dc' old. unfold vr4300_dcache_set_tag.
    now rewrite deref_store_at. }
  assert (Hbit : 0 <= Z.land (metadata old) 0x1 < 4096).
  { change 0x1 with (Z.ones 1). rewrite Z.land_ones by lia.
    assert (0 <= metadata old mod 2 ^ 1 < 2 ^ 1)
      by (apply Z.mod_pos_bound; lia). lia. }
  assert (Htag : vr4300_dcache_get_tag new = tag mod 2 ^ 20).
  { rewrite Hnew. unfold set_tag, vr4300_dcache_get_tag, get_tag.
    cbn [metadata]. apply metadata_tag. exact Hbit. }
  split; [now rewrite Hnew|].
  split.
  { rewrite Hnew. unfold set_tag, is_valid. cbn [metadata].
    rewrite metadata_flags by lia.
    rewrite <- Z.land_assoc. reflexivity. }
  split.
  { rewrite Hnew. unfold set_tag, is_dirty. cbn [metadata].
    rewrite metadata_flags by lia.
    rewrite <- Z.land_assoc. change (Z.land 1 2) with 0.
    now rewrite Z.land_0_r. }
  split; [exact Htag|].
  split; [now rewrite Hnew|].
  split.
  { intros p Hp. subst dc'. unfold vr4300_dcache_set_tag.
    apply deref_store_ne. congruence. }
  rewrite Htag. split.
  - intros Heq. rewrite <- Heq. apply Z.mod_pos_bound. lia.
  - intros Hlt. apply Z.mod_small. exact Hlt.
Qed.

Lemma set_tag_clears_dirty_dirty_line :
  dcache_ok dirty_dcache /\
  is_dirty (deref dirty_dcache (get_line 0)) = true /\
  is_dirty (deref (vr4300_dcache_set_tag dirty_dcache 0 0x12345)
              (get_line 0)) = false.
Proof.
  assert (Hok : dcache_ok dirty_dcache) by reflexivity.
  split; [exact Hok|]. split; [reflexivity|].
  exact (proj1 (proj2 (proj2 (set_tag_clears_dirty dirty_dcache 0 0x12345 Hok)))).
Defined.

(** C8, as stated.  The tag [0x100000] has 21 bits: [set_tag] leaves the
    cache as the tag 0 does, and the tag read back is 0, not the new tag.
    The same holds for [0xFFFFFFFF], read back as [0xFFFFF]. *)
Lemma set_tag_drops_high_tag_bits :
  dcache_ok dirty_dcache /\
  vr4300_dcache_set_tag dirty_dcache 0 0x100000
  = vr4300_dcache_set_tag dirty_dcache 0 0 /\
  vr4300_dcache_get_tag
    (deref (vr4300_dcache_set_tag dirty_dcache 0 0x100000) (get_line 0)) = 0 /\
  vr4300_dcache_get_tag
    (deref (vr4300_dcache_set_tag dirty_dcache 0 0xFFFFFFFF) (get_line 0))
  = 0xFFFFF /\
  0x100000 <> 0 /\ 0xFFFFFFFF <> 0xFFFFF.
Proof.
  split; [reflexivity|]. split; [vm_compute; reflexivity|].
  split; [vm_compute; reflexivity|]. split; [vm_compute; reflexivity|].
  split; discriminate.
Qed.

End DcacheFacts.

(** ** The log file *)

Section DebugFacts.
Import Host Debug Samples.

Lemma LOG_null fmt args w : log_fp w = None -> LOG fmt args w = (tt, w).
Proof.
  intros H. unfold LOG, mbind, M_bind, get_log_fp. cbn. rewrite H.
  reflexivity.
Qed.

Lemma LOG_open fmt args w f :
  log_fp w = Some f ->
  LOG fmt args w
  = (tt, {| log_fp := log_fp w; trace := trace w ++ [ev_fprintf f fmt args] |}).
Proof.
  intros H. unfold LOG, mbind, M_bind, get_log_fp. cbn. rewrite H.
  unfold fprintf, call. cbn. rewrite H. reflexivity.
Qed.

Lemma open_log_file_fails h path w :
  fopen h path "w" = None ->
  open_log_file h path w = (1, {| log_fp := None; trace := trace w |}).
Proof.
  intros H. unfold open_log_file, mbind, M_bind, set_log_fp, get_log_fp. cbn.
  rewrite H. reflexivity.
Qed.

Lemma open_log_file_succeeds h path w f :
  fopen h path "w" = Some f ->
  open_log_file h path w = (0, {| log_fp := Some f; trace := trace w |}).
Proof.
  intros H. unfold open_log_file, mbind, M_bind, set_log_fp, get_log_fp. cbn.
  rewrite H. reflexivity.
Qed.

Lemma run_log_calls_silent h cs :
  no_open_succeeds h cs ->
  forall w, log_fp w = None ->
    snd (run_log_calls h cs w) = w /\
    Forall (fun rc => rc = 1) (fst (run_log_calls h cs w)).
Proof.
  induction 1 as [|c cs Hc Hcs IH]; intros w Hw.
  - split; [reflexivity|constructor].
  - destruct c as [path|fmt args]; cbn [run_log_calls]; unfold mbind, M_bind.
    + rewrite (open_log_file_fails h path w Hc). cbn [fst snd].
      destruct w as [fp tr]. cbn in Hw. subst fp. cbn [trace].
      destruct (IH {| log_fp := None; trace := tr |} eq_refl) as [IH1 IH2].
      split; [exact IH1|]. cbn. constructor; [reflexivity|exact IH2].
    + rewrite (LOG_null fmt args w Hw). cbn [fst snd]. apply IH, Hw.
Qed.

(** C4.  [close_log_file] has its test the wrong way round: with a log
    file open it calls nothing and the handle stays open; with [log_fp]
    null it calls [fclose(NULL)]. *)
Theorem close_log_file_inverted :
  (forall f tr,
     close_log_file {| log_fp := Some f; trace := tr |}
     = (tt, {| log_fp := Some f; trace := tr |})) /\
  (forall tr,
     close_log_file {| log_fp := None; trace := tr |}
     = (tt, {| log_fp := None; trace := tr ++ [ev_fclose None] |})).
Proof. split; intros; reflexivity. Qed.

(** C9.  When [fopen] fails, [open_log_file] returns 1 and [log_fp] is
    null; [LOG] with [log_fp] null changes nothing, whatever its
    arguments; so a program that starts, calls [open_log_file] without
    success any number of times and uses [LOG] any number of times, has
    every [open_log_file] return 1 and produces no output at all. *)
Theorem log_silent_without_log_file h :
  (forall path w,
     fopen h path "w" = None ->
     open_log_file h path w = (1, {| log_fp := None; trace := trace w |})) /\
  (forall fmt args w, log_fp w = None -> LOG fmt args w = (tt, w)) /\
  (forall cs,
     no_open_succeeds h cs ->
     snd (run_log_calls h cs init_world) = init_world /\
     Forall (fun rc => rc = 1) (fst (run_log_calls h cs init_world))).
Proof.
  split; [|split].
  - apply open_log_file_fails.
  - apply LOG_null.
  - intros cs Hcs. apply run_log_calls_silent; [exact Hcs|reflexivity].
Qed.

Lemma log_silent_without_log_file_no_log_host :
  let cs := [do_LOG "boot\n" []; do_open_log_file "cen64.log";
             do_LOG "ROM,%s\n" [arg_s (Some "NSME")]] in
  no_open_succeeds no_log_host cs /\
  run_log_calls no_log_host cs init_world = ([1], init_world).
Proof.
  intros cs.
  assert (Hcs : no_open_succeeds no_log_host cs)
    by (repeat constructor).
  split; [exact Hcs|].
  destruct (proj2 (proj2 (log_silent_without_log_file no_log_host)) cs Hcs)
    as [Hw _].
  rewrite (surjective_pairing (run_log_calls no_log_host cs init_world)).
  rewrite Hw. reflexivity.
Defined.

End DebugFacts.

(** ** ROM loading *)

Section LoadRomsFacts.
Import Host Debug Cen64 Observe Samples.

Lemma nonzero_0 : nonzero 0 = false.
Proof. reflexivity. Qed.

Lemma nonzero_false n : nonzero n = false <-> n = 0.
Proof. unfold nonzero. rewrite negb_false_iff. apply Z.eqb_eq. Qed.

Ltac run_io :=
  unfold mbind, M_bind, mret, M_ret, when, printf, close_rom_file, call;
  cbn [fst snd trace log_fp].

(** C5, as the code has it.  When every ROM that is asked for opens (DD
    IPL, DD ROM, PIF ROM, cart) and the SHA-1 of the DD IPL or of the PIF
    ROM matches no known sum, [load_roms] returns 0, prints the warning
    for each mismatch, and closes no ROM. *)
Theorem load_roms_sha_mismatch_is_warning
    h ddipl_path ddrom_path pifrom_path cart_path ddipl ddrom pifrom cart w :
  let ipl := snd (open_rom_file h ddipl_path) in
  let pif := snd (open_rom_file h pifrom_path) in
  let ipl_bad :=
    nonnull ddipl_path && negb (validate_sha h ipl (sha1_dd_ipl h)) in
  let pif_bad :=
    negb (validate_sha h pif (sha1_pifrom_ntsc h)) &&
    negb (validate_sha h pif (sha1_pifrom_ntsc_j h)) &&
    negb (validate_sha h pif (sha1_pifrom_pal h)) in
  (nonnull ddipl_path = true -> fst (open_rom_file h ddipl_path) = 0) ->
  (nonnull ddrom_path = true -> fst (open_rom_file h ddrom_path) = 0) ->
  fst (open_rom_file h pifrom_path) = 0 ->
  (nonnull cart_path = true -> fst (open_rom_file h cart_path) = 0) ->
  ipl_bad || pif_bad = true ->
  let r := load_roms h ddipl_path ddrom_path pifrom_path cart_path
             ddipl ddrom pifrom cart w in
  fst (fst r) = 0 /\
  exists evs,
    trace (snd r) = trace w ++ evs /\
    (ipl_bad = true -> In (ev_printf "Invalid SHA1 on DD IPL.\n" []) evs) /\
    (pif_bad = true ->
       In (ev_printf "Unknown or corrupted PIFROM: %s.\n" [arg_s pifrom_path])
          evs) /\
    Forall (fun e => ~ is_close_rom_file e) evs.
Proof.
  intros ipl pif ipl_bad pif_bad Hipl Hrom Hpif Hcart Hbad r.
  subst r ipl_bad pif_bad ipl pif.
  unfold load_roms, open_rom_file_if_path.
  destruct ddipl_path as [p_ipl|], ddrom_path as [p_rom|],
    cart_path as [p_cart|]; cbn [nonnull andb] in *;
  repeat match goal with
  | H : true = true -> _ |- _ => specialize (H eq_refl)
  | H : false = true -> _ |- _ => clear H
  end;
  repeat match goal with
  | |- context [open_rom_file h ?p] =>
      destruct (open_rom_file h p) as [? ?]; cbn [fst snd] in *; subst
  end;
  repeat match goal with
  | |- context [validate_sha ?a ?b ?c] =>
      destruct (validate_sha a b c) eqn:?
  end;
  cbn [negb andb orb] in Hbad; try discriminate Hbad;
  run_io; cbn;
  (split; [reflexivity|]);
  rewrite <- ?app_assoc; (eexists; split; [reflexivity|]);
  cbn [app];
  (split; [intros Hw; first [discriminate Hw | cbn; auto 10]|]);
  (split; [intros Hw; first [discriminate Hw | cbn; auto 10]|]);
  repeat constructor; cbn; tauto.
Qed.

Lemma load_roms_sha_mismatch_is_warning_bad_sha_host :
  let h := bad_sha_host in
  (nonnull (Some "ddipl.bin") = true ->
   fst (open_rom_file h (Some "ddipl.bin")) = 0) /\
  fst (open_rom_file h (Some "pifrom.bin")) = 0 /\
  (nonnull (Some "cart.z64") = true ->
   fst (open_rom_file h (Some "cart.z64")) = 0) /\
  validate_sha h (snd (open_rom_file h (Some "ddipl.bin"))) (sha1_dd_ipl h)
    = false /\
  fst (fst (load_roms h (Some "ddipl.bin") None (Some "pifrom.bin")
              (Some "cart.z64") zero_rom_file zero_rom_file zero_rom_file
              zero_rom_file init_world)) = 0.
Proof.
  intros h.
  assert (H1 : nonnull (Some "ddipl.bin") = true ->
               fst (open_rom_file h (Some "ddipl.bin")) = 0)
    by (intros _; reflexivity).
  assert (H2 : nonnull (@None string) = true ->
               fst (open_rom_file h None) = 0)
    by (intros _; reflexivity).
  assert (H3 : fst (open_rom_file h (Some "pifrom.bin")) = 0) by reflexivity.
  assert (H4 : nonnull (Some "cart.z64") = true ->
               fst (open_rom_file h (Some "cart.z64")) = 0)
    by (intros _; reflexivity).
  split; [exact H1|]. split; [exact H3|]. split; [exact H4|].
  split; [reflexivity|].
  exact (proj1 (load_roms_sha_mismatch_is_warning h (Some "ddipl.bin") None
                  (Some "pifrom.bin") (Some "cart.z64") zero_rom_file
                  zero_rom_file zero_rom_file zero_rom_file init_world
                  H1 H2 H3 H4 eq_refl)).
Defined.

(** C5, as stated.  The DD IPL and the PIF ROM open, no SHA-1 matches, and
    the cart does not open: [load_roms] returns 4. *)
Lemma load_roms_sha_mismatch_missing_cart :
  let h := bad_sha_missing_cart_host in
  let r := load_roms h (Some "ddipl.bin") None (Some "pifrom.bin")
             (Some "cart.z64") zero_rom_file zero_rom_file zero_rom_file
             zero_rom_file init_world in
  fst (open_rom_file h (Some "ddipl.bin")) = 0 /\
  fst (open_rom_file h (Some "pifrom.bin")) = 0 /\
  validate_sha h (snd (open_rom_file h (Some "ddipl.bin"))) (sha1_dd_ipl h)
    = false /\
  validate_sha h (snd (open_rom_file h (Some "pifrom.bin")))
    (sha1_pifrom_ntsc h) = false /\
  validate_sha h (snd (open_rom_file h (Some "pifrom.bin")))
    (sha1_pifrom_ntsc_j h) = false /\
  validate_sha h (snd (open_rom_file h (Some "pifrom.bin")))
    (sha1_pifrom_pal h) = false /\
  fst (fst r) = 4 /\ fst (fst r) <> 0.
Proof. vm_compute. repeat split; discriminate. Qed.

End LoadRomsFacts.

(** ** Exit codes of [cen64_main] *)

Section ExitCodeFacts.
Import Host Debug Cen64 Observe Samples.

Lemma neutral_ret {A} (a : A) : join_neutral (mret a).
Proof. intros w. reflexivity. Qed.

Lemma neutral_bind {A B} (m : M A) (k : A -> M B) :
  join_neutral m -> (forall a, join_neutral (k a)) -> join_neutral (m ≫= k).
Proof.
  intros Hm Hk w. unfold mbind, M_bind.
  rewrite (Hk (fst (m w)) (snd (m w))). apply Hm.
Qed.

Lemma neutral_call e : e <> ev_cen64_thread_join -> join_neutral (call e).
Proof.
  intros He w. unfold joined, call. cbn [snd trace].
  rewrite in_app_iff. cbn [In]. intuition congruence.
Qed.

Lemma neutral_when c m : join_neutral m -> join_neutral (when c m).
Proof. intros Hm. destruct c; [exact Hm|apply neutral_ret]. Qed.

Lemma neutral_get_log_fp : join_neutral get_log_fp.
Proof. intros w. reflexivity. Qed.

Lemma neutral_set_log_fp fp : join_neutral (set_log_fp fp).
Proof. intros w. reflexivity. Qed.

(** Walks through a computation built from the calls above. *)
Ltac neutral :=
  repeat match goal with
  | |- forall _, _ => intros ?
  | |- join_neutral (let x := _ in _) => cbv zeta
  | |- join_neutral (mret _) => apply neutral_ret
  | |- join_neutral get_log_fp => apply neutral_get_log_fp
  | |- join_neutral (set_log_fp _) => apply neutral_set_log_fp
  | |- join_neutral (call _) => apply neutral_call; discriminate
  | |- join_neutral (printf _ _) => unfold printf
  | |- join_neutral (fprintf _ _ _) => unfold fprintf
  | |- join_neutral (fclose _) => unfold fclose
  | |- join_neutral (close_rom_file _) => unfold close_rom_file
  | |- join_neutral cen64_alloc_cleanup => unfold cen64_alloc_cleanup
  | |- join_neutral (print_command_line_usage _) =>
      unfold print_command_line_usage
  | |- join_neutral (when _ _) => apply neutral_when
  | |- join_neutral (mbind _ _) => apply neutral_bind
  | |- join_neutral (if ?c then _ else _) => destruct c
  | |- join_neutral (match ?x with _ => _ end) => destruct x
  end.

Lemma neutral_open_log_file h path : join_neutral (open_log_file h path).
Proof. unfold open_log_file. neutral. Qed.

Lemma neutral_close_log_file : join_neutral close_log_file.
Proof. unfold close_log_file. neutral. Qed.

Lemma neutral_LOG fmt args : join_neutral (LOG fmt args).
Proof. unfold LOG. neutral. Qed.

Lemma neutral_load_roms h p1 p2 p3 p4 r1 r2 r3 r4 :
  join_neutral (load_roms h p1 p2 p3 p4 r1 r2 r3 r4).
Proof. unfold load_roms. neutral. Qed.

Lemma neutral_load_paks_loop h n : forall i cs,
  join_neutral (load_paks_loop h n i cs).
Proof.
  induction n as [|n IH]; intros i cs; cbn [load_paks_loop].
  - apply neutral_ret.
  - neutral; apply IH.
Qed.

Lemma neutral_load_paks h cs : join_neutral (load_paks h cs).
Proof. apply neutral_load_paks_loop. Qed.

Ltac neutral_calls :=
  repeat match goal with
  | |- join_neutral (load_roms _ _ _ _ _ _ _ _ _) => apply neutral_load_roms
  | |- join_neutral (load_paks _ _) => apply neutral_load_paks
  | |- join_neutral (open_log_file _ _) => apply neutral_open_log_file
  | |- join_neutral close_log_file => apply neutral_close_log_file
  | |- join_neutral (LOG _ _) => apply neutral_LOG
  | |- _ => progress neutral
  end.

Lemma neutral_release_resources o r1 r2 r3 r4 :
  join_neutral (release_resources o r1 r2 r3 r4).
Proof. unfold release_resources. neutral_calls. Qed.

(** [load_paks] returns 0 or -1. *)
Lemma load_paks_loop_status h n : forall i cs w,
  fst (fst (load_paks_loop h n i cs w)) = 0 \/
  fst (fst (load_paks_loop h n i cs w)) = -1.
Proof.
  induction n as [|n IH]; intros i cs w; cbn [load_paks_loop].
  - left. reflexivity.
  - repeat match goal with
    | |- context [if ?c then _ else _] => destruct c
    | |- context [match ?x with _ => _ end] => destruct x
    end;
    unfold mbind, M_bind, mret, M_ret; cbn [fst snd];
    first [apply IH | right; reflexivity].
Qed.

Lemma decided_bind {A} (m : M A) (k : A -> M Z) :
  join_neutral m -> (forall a, decided (k a)) -> decided (m ≫= k).
Proof.
  intros Hm Hk w Hw. unfold mbind, M_bind.
  apply Hk. now rewrite (Hm w).
Qed.

Lemma decided_failure : decided (mret EXIT_FAILURE).
Proof. intros w Hw. right. split; [reflexivity|exact Hw]. Qed.

Lemma decided_then {A} (m : M Z) (k : M A) :
  decided m -> join_neutral k ->
  decided (status ← m ; k ;; mret status).
Proof.
  intros Hm Hk w Hw. unfold mbind, M_bind, mret, M_ret. cbn [fst snd].
  rewrite (Hk (snd (m w))). apply Hm, Hw.
Qed.

(** [run_device] returns 0 after the join, and 1 without one when the
    thread cannot be created. *)
Lemma decided_create_and_run h o r1 r2 r3 r4 s1 s2 s3 cs :
  decided (create_and_run h o r1 r2 r3 r4 s1 s2 s3 cs).
Proof.
  unfold create_and_run.
  destruct (cen64_alloc h) as [device|].
  2: { apply decided_bind; [neutral|intros _; apply decided_failure]. }
  apply decided_then; [|neutral].
  destruct (device_create _ _ _ _ _ _ _ _ _ _ _ _) as [device'|].
  2: { apply decided_bind; [neutral|intros _; apply decided_failure]. }
  intros w Hw. unfold run_device.
  destruct (nonzero (cen64_thread_create h));
    unfold mbind, M_bind, mret, M_ret, when, printf, call; cbn.
  - right. split; [reflexivity|]. unfold joined in *. cbn.
    rewrite !in_app_iff. cbn. intuition congruence.
  - left. split; [reflexivity|]. unfold joined.
    destruct (no_video o); cbn; rewrite !in_app_iff; cbn; auto.
Qed.

Ltac decide_steps :=
  repeat match goal with
  | |- forall _, _ => intros ?
  | |- decided (let x := _ in _) => cbv zeta
  | |- decided (mret _) => apply decided_failure
  | |- decided (if ?c then _ else _) => destruct c
  | |- decided (match ?x with _ => _ end) => destruct x
  | |- decided (mbind _ (create_and_run _ _ _ _ _ _ _ _ _ _)) =>
      apply decided_then;
        [apply decided_create_and_run | apply neutral_release_resources]
  | |- decided (mbind _ _) =>
      apply decided_bind; [solve [neutral_calls] | ]
  end.

(** [cen64_main] returns [EXIT_SUCCESS] (0) or [EXIT_FAILURE] (1) and
    nothing else: it returns 0 exactly when the emulation thread was
    created and joined, or when the cart DB check and the allocator
    initialisation passed and [argc < 3] (the usage text). *)
Lemma exit_code_tells_join h argc argv :
  let r := cen64_main h argc argv init_world in
  (fst r = EXIT_SUCCESS \/ fst r = EXIT_FAILURE) /\
  (fst r = EXIT_SUCCESS <->
     joined (snd r) \/
     (cart_db_is_well_formed h = true /\ cen64_alloc_init h = 0 /\ argc < 3)).
Proof.
  intros r. subst r. unfold cen64_main.
  destruct (cart_db_is_well_formed h) eqn:Hdb; cbn [negb].
  2: { cbn. split; [right; reflexivity|]. unfold joined. cbn.
       split; [discriminate|]. intros [[[=]|[]]|[[=] _]]. }
  destruct (nonzero (cen64_alloc_init h)) eqn:Halloc.
  { cbn. split; [right; reflexivity|]. unfold joined. cbn.
    split; [discriminate|]. intros [[[=]|[]]|[_ [H0 _]]].
    unfold nonzero in Halloc. rewrite H0 in Halloc. discriminate Halloc. }
  assert (Hinit : cen64_alloc_init h = 0) by (apply nonzero_false, Halloc).
  destruct (argc <? 3) eqn:Hargc.
  { cbn. split; [left; reflexivity|]. split; [|reflexivity].
    intros _. right. repeat split; [exact Hinit|lia]. }
  match goal with
  | |- context [fst (?m init_world)] => assert (Hd : decided m)
  end.
  { decide_steps. }
  assert (Hq : ~ joined init_world) by (unfold joined; cbn; tauto).
  destruct (Hd init_world Hq) as [[Hs Hj]|[Hs Hj]]; rewrite Hs.
  - split; [left; reflexivity|]. split; [intros _; left; exact Hj|reflexivity].
  - split; [right; reflexivity|]. split; [discriminate|].
    intros [Hj'|[_ [_ Hlt]]]; [contradiction|lia].
Qed.

(** C6, as stated.  A malformed cart DB, a failed allocator
    initialisation and a missing cart all give exit code 1, so the code
    does not tell the steps apart; and with one argument the exit code is
    0 although no device was created or run. *)
Lemma exit_code_does_not_tell_the_step :
  fst (cen64_main bad_cart_db_host 3 sample_argv init_world) = 1 /\
  fst (cen64_main alloc_init_fails_host 3 sample_argv init_world) = 1 /\
  fst (cen64_main missing_cart_host 3 sample_argv init_world) = 1 /\
  fst (cen64_main good_host 1 ["cen64"] init_world) = 0 /\
  ~ joined (snd (cen64_main good_host 1 ["cen64"] init_world)).
Proof.
  split; [vm_compute; reflexivity|].
  split; [vm_compute; reflexivity|].
  split; [vm_compute; reflexivity|].
  split; [vm_compute; reflexivity|].
  vm_compute. intros [H|[H|[]]]; discriminate H.
Qed.

(** C10, as the code has it.  Once the cart DB check and the allocator
    initialisation have passed, [argc < 3] makes [cen64_main] print the
    usage, call [cen64_alloc_cleanup] and return [EXIT_SUCCESS],
    and do nothing else. *)
Theorem usage_returns_success h argc argv w :
  cart_db_is_well_formed h = true ->
  cen64_alloc_init h = 0 ->
  argc < 3 ->
  cen64_main h argc argv w
  = (EXIT_SUCCESS,
     {| log_fp := log_fp w;
        trace := trace w ++ [ev_print_command_line_usage (argv !! 0%nat);
                             ev_cen64_alloc_cleanup] |}).
Proof.
  intros Hdb Hinit Hargc. unfold cen64_main.
  rewrite Hdb, Hinit. cbn [negb nonzero Z.eqb].
  replace (argc <? 3) with true by lia.
  unfold mbind, M_bind, mret, M_ret, print_command_line_usage,
    cen64_alloc_cleanup, call. cbn [fst snd trace log_fp].
  now rewrite <- app_assoc.
Qed.

Lemma usage_returns_success_good_host :
  cart_db_is_well_formed good_host = true /\
  cen64_alloc_init good_host = 0 /\
  1 < 3 /\
  cen64_main good_host 1 ["cen64"] init_world
  = (0, {| log_fp := None;
           trace := [ev_print_command_line_usage (Some "cen64");
                     ev_cen64_alloc_cleanup] |}).
Proof.
  assert (Hdb : cart_db_is_well_formed good_host = true) by reflexivity.
  assert (Hinit : cen64_alloc_init good_host = 0) by reflexivity.
  assert (Hargc : 1 < 3) by lia.
  split; [exact Hdb|]. split; [exact Hinit|]. split; [exact Hargc|].
  exact (usage_returns_success good_host 1 ["cen64"] init_world
           Hdb Hinit Hargc).
Defined.

(** C10, as stated.  With [argc < 3] and a failed allocator
    initialisation, or a malformed cart DB, [cen64_main] returns
    [EXIT_FAILURE] and prints no usage. *)
Lemma usage_not_reached_when_init_fails :
  1 < 3 /\
  cen64_main alloc_init_fails_host 1 ["cen64"] init_world
  = (EXIT_FAILURE,
     {| log_fp := None;
        trace := [ev_printf
                    "Failed to initialize the low-level allocators.\n"
                    []] |}) /\
  cen64_main bad_cart_db_host 1 ["cen64"] init_world
  = (EXIT_FAILURE,
     {| log_fp := None;
        trace := [ev_printf
                    "Internal cart detection database is not well-formed.\n"
                    []] |}) /\
  EXIT_FAILURE <> EXIT_SUCCESS.
Proof.
  split; [lia|]. split; [vm_compute; reflexivity|].
  split; [vm_compute; reflexivity|discriminate].
Qed.

End ExitCodeFacts.

(** ** The RSP vector load and store entries *)

Section RspFacts.
Import Rsp Samples.

Lemma land_lor_r a b : Z.land (Z.lor a b) b = b.
Proof.
  apply Z.bits_inj'. intros n _. rewrite Z.land_spec, Z.lor_spec. btauto.
Qed.

Lemma land_lor_l a b c : Z.land a c = c -> Z.land (Z.lor a b) c = c.
Proof.
  intros H. rewrite Z.land_lor_distr_l, H.
  apply Z.bits_inj'. intros n _. rewrite Z.lor_spec, Z.land_spec. btauto.
Qed.

Lemma has_info_INFO3 bits i f x y z :
  let op := RSP_BUILD_OP i f (INFO3 bits x y z) in
  has_info bits op x /\ has_info bits op y /\ has_info bits op z.
Proof.
  intros op. unfold has_info, op, INFO3, INFO2, INFO1. cbn [info].
  repeat split.
  - apply land_lor_l, land_lor_l, Z.land_diag.
  - apply land_lor_l, land_lor_r.
  - apply land_lor_r.
Qed.

(** C7, as the code has it.  [LBV], [LSV], [LLV], [LDV], [LQV] carry LOAD,
    NEEDRS and NEEDVT, and [SBV], [SSV], [SLV], [SDV], [SQV] carry STORE,
    NEEDRS and NEEDVT; these ten are executed by [BDLQSV_SBDLQSV].  The
    other thirteen variants are built with the function [INVALID] and the
    info [NONE].  This holds whatever the values of the [OPCODE_INFO_x]
    constants are. *)
Theorem vector_load_store_entries bits :
  Forall (fun op => has_info bits op OPCODE_INFO_LOAD /\
                    has_info bits op OPCODE_INFO_NEEDRS /\
                    has_info bits op OPCODE_INFO_NEEDVT /\
                    func op = FUNCTION_BDLQSV_SBDLQSV)
         (implemented_loads bits) /\
  Forall (fun op => has_info bits op OPCODE_INFO_STORE /\
                    has_info bits op OPCODE_INFO_NEEDRS /\
                    has_info bits op OPCODE_INFO_NEEDVT /\
                    func op = FUNCTION_BDLQSV_SBDLQSV)
         (implemented_stores bits) /\
  Forall (fun op => func op = FUNCTION_INVALID /\
                    info op = bits OPCODE_INFO_NONE)
         (unimplemented bits).
Proof.
  split; [|split].
  - unfold implemented_loads.
    repeat apply Forall_cons_2; try apply Forall_nil_2;
      match goal with
      | |- context [has_info bits (?o bits)] =>
          unfold o;
          match goal with
          | |- context [RSP_BUILD_OP ?i ?f (INFO3 bits ?x ?y ?z)] =>
              destruct (has_info_INFO3 bits i f x y z) as (H1 & H2 & H3)
          end
      end; auto.
  - unfold implemented_stores.
    repeat apply Forall_cons_2; try apply Forall_nil_2;
      match goal with
      | |- context [has_info bits (?o bits)] =>
          unfold o;
          match goal with
          | |- context [RSP_BUILD_OP ?i ?f (INFO3 bits ?x ?y ?z)] =>
              destruct (has_info_INFO3 bits i f x y z) as (H1 & H2 & H3)
          end
      end; auto.
  - unfold unimplemented.
    repeat apply Forall_cons_2; try apply Forall_nil_2; split; reflexivity.
Qed.

(** C7, as stated.  [LRV] is built with the function and the info of the
    [INVALID] entry.  So no assignment of values to the [OPCODE_INFO_x]
    constants makes every variant carry its flags and avoid [INVALID];
    and whenever [NONE] is 0 and [LOAD] is not, the info of [LRV] does not
    contain [LOAD]. *)
Lemma unimplemented_variants_decode_invalid :
  (~ exists bits, all_variants_decoded bits) /\
  (forall bits,
     func (LRV bits) = func (INVALID bits) /\
     info (LRV bits) = info (INVALID bits)) /\
  (forall bits,
     bits OPCODE_INFO_NONE = 0 -> bits OPCODE_INFO_LOAD <> 0 ->
     ~ has_info bits (LRV bits) OPCODE_INFO_LOAD) /\
  ~ has_info sample_bits (LRV sample_bits) OPCODE_INFO_LOAD.
Proof.
  assert (Hflag : forall bits,
            bits OPCODE_INFO_NONE = 0 -> bits OPCODE_INFO_LOAD <> 0 ->
            ~ has_info bits (LRV bits) OPCODE_INFO_LOAD).
  { intros bits Hnone Hload. unfold has_info, LRV, INFO1. cbn [info].
    rewrite Hnone, Z.land_0_l. congruence. }
  split; [|split; [|split]].
  - intros [bits [Hloads _]]. unfold vector_loads in Hloads.
    rewrite !Forall_cons in Hloads.
    destruct Hloads as (_ & _ & _ & _ & _ & (_ & _ & _ & Hf) & _).
    apply Hf. reflexivity.
  - intros bits. split; reflexivity.
  - exact Hflag.
  - apply Hflag; [reflexivity|discriminate].
Qed.

End RspFacts.

(** ** More on the data cache *)

Section DcacheMore.
Import Dcache DcacheInv.

Lemma testbit_above_32 m n :
  0 <= m < 2 ^ 32 -> 32 <= n -> Z.testbit m n = false.
Proof.
  intros Hm Hn. destruct (Z.eq_dec m 0) as [->|Hnz]; [apply Z.testbit_0_l|].
  apply Z.bits_above_log2; [lia|].
  assert (Z.log2 m < 32) by (apply Z.log2_lt_pow2; lia). lia.
Qed.

Lemma range_of_bits x :
  (forall n, 32 <= n -> Z.testbit x n = false) -> 0 <= x < 2 ^ 32.
Proof.
  intros Hx. assert (Hid : x mod 2 ^ 32 = x).
  { apply Z.bits_inj'. intros n Hn. rewrite Z.testbit_mod_pow2 by lia.
    destruct (n <? 32) eqn:E; [reflexivity|]. symmetry. apply Hx. lia. }
  rewrite <- Hid. apply Z.mod_pos_bound. lia.
Qed.

Lemma u32_lnot_mask m k :
  0 <= m < 2 ^ 32 -> Z.land m (u32 (Z.lnot k)) = Z.land m (Z.lnot k).
Proof.
  intros Hm. apply Z.bits_inj'. intros n Hn.
  rewrite !Z.land_spec. unfold u32. rewrite Z.testbit_mod_pow2 by lia.
  destruct (n <? 32) eqn:E; [reflexivity|].
  rewrite (testbit_above_32 m n) by lia. reflexivity.
Qed.

Lemma land_range m k : 0 <= m < 2 ^ 32 -> 0 <= Z.land m k < 2 ^ 32.
Proof.
  intros Hm. apply range_of_bits. intros n Hn.
  rewrite Z.land_spec, (testbit_above_32 m n) by lia. reflexivity.
Qed.

Lemma lor_range m k :
  0 <= m < 2 ^ 32 -> 0 <= k < 2 ^ 32 -> 0 <= Z.lor m k < 2 ^ 32.
Proof.
  intros Hm Hk. apply range_of_bits. intros n Hn.
  rewrite Z.lor_spec, (testbit_above_32 m n), (testbit_above_32 k n) by lia.
  reflexivity.
Qed.

Lemma u32_range x : 0 <= u32 x < 2 ^ 32.
Proof. apply Z.mod_pos_bound. lia. Qed.

(** Clearing one flag bit [2^j] of a 32-bit word. *)
Lemma clear_flag_bits m j n :
  0 <= m < 2 ^ 32 -> 0 <= j -> 0 <= n ->
  Z.testbit (Z.land m (u32 (Z.lnot (2 ^ j)))) n
  = Z.testbit m n && negb (n =? j).
Proof.
  intros Hm Hj Hn. rewrite u32_lnot_mask by exact Hm.
  rewrite Z.land_spec, Z.lnot_spec, Z.pow2_bits_eqb by lia.
  now rewrite (Z.eqb_sym j n).
Qed.

Lemma flag_test m j :
  0 <= j -> (Z.land m (2 ^ j) =? 2 ^ j) = Z.testbit m j.
Proof.
  intros Hj. destruct (Z.testbit m j) eqn:E.
  - apply Z.eqb_eq. apply Z.bits_inj'. intros n Hn.
    rewrite Z.land_spec, Z.pow2_bits_eqb by lia.
    destruct (Z.eqb_spec j n) as [<-|Hne]; [now rewrite E|apply andb_false_r].
  - apply Z.eqb_neq. intros Heq.
    assert (Hb : Z.testbit (Z.land m (2 ^ j)) j = Z.testbit (2 ^ j) j)
      by now rewrite Heq.
    rewrite Z.land_spec, Z.pow2_bits_true, E in Hb by lia. discriminate Hb.
Qed.

Lemma is_valid_bit l : is_valid l = Z.testbit (metadata l) 0.
Proof. unfold is_valid. exact (flag_test (metadata l) 0 ltac:(lia)). Qed.

Lemma is_dirty_bit l : is_dirty l = Z.testbit (metadata l) 1.
Proof. unfold is_dirty. exact (flag_test (metadata l) 1 ltac:(lia)). Qed.

Lemma get_tag_bits l n : 0 <= n -> Z.testbit (get_tag l) n = Z.testbit (metadata l) (n + 12).
Proof. intros Hn. unfold get_tag. now rewrite Z.shiftr_spec. Qed.

Lemma get_tag_eq l l' :
  (forall n, 12 <= n -> Z.testbit (metadata l) n = Z.testbit (metadata l') n) ->
  get_tag l = get_tag l'.
Proof.
  intros H. apply Z.bits_inj'. intros n Hn. rewrite !get_tag_bits by lia.
  apply H. lia.
Qed.

Lemma flag_operations l :
  metadata_ok l ->
  (is_valid (invalidate_line l) = false /\
   is_dirty (invalidate_line l) = is_dirty l /\
   get_tag (invalidate_line l) = get_tag l /\
   data (invalidate_line l) = data l /\
   metadata_ok (invalidate_line l)) /\
  (is_dirty (set_clean l) = false /\
   is_valid (set_clean l) = is_valid l /\
   get_tag (set_clean l) = get_tag l /\
   data (set_clean l) = data l /\
   metadata_ok (set_clean l)) /\
  (is_dirty (set_dirty l) = true /\
   is_valid (set_dirty l) = is_valid l /\
   get_tag (set_dirty l) = get_tag l /\
   data (set_dirty l) = data l /\
   metadata_ok (set_dirty l)) /\
  (is_dirty l = false -> set_clean (set_dirty l) = l).
Proof.
  intros Hm. unfold metadata_ok in *.
  assert (Hinv : forall n, 0 <= n ->
            Z.testbit (metadata (invalidate_line l)) n
            = Z.testbit (metadata l) n && negb (n =? 0)).
  { intros n Hn. exact (clear_flag_bits (metadata l) 0 n Hm ltac:(lia) Hn). }
  assert (Hcl : forall n, 0 <= n ->
            Z.testbit (metadata (set_clean l)) n
            = Z.testbit (metadata l) n && negb (n =? 1)).
  { intros n Hn. exact (clear_flag_bits (metadata l) 1 n Hm ltac:(lia) Hn). }
  assert (Hdi : forall n, 0 <= n ->
            Z.testbit (metadata (set_dirty l)) n
            = Z.testbit (metadata l) n || (n =? 1)).
  { intros n Hn. unfold set_dirty. cbn [metadata]. rewrite Z.lor_spec.
    change 2 with (2 ^ 1). rewrite Z.pow2_bits_eqb by lia.
    now rewrite (Z.eqb_sym 1 n). }
  repeat split.
  - rewrite is_valid_bit, Hinv by lia. apply andb_false_r.
  - rewrite !is_dirty_bit, Hinv by lia. apply andb_true_r.
  - apply get_tag_eq. intros n Hn. rewrite Hinv by lia.
    replace (n =? 0) with false by lia. apply andb_true_r.
  - unfold invalidate_line. cbn [metadata]. apply Z.land_nonneg. left. lia.
  - unfold invalidate_line. cbn [metadata]. apply land_range, Hm.
  - rewrite is_dirty_bit, Hcl by lia. apply andb_false_r.
  - rewrite !is_valid_bit, Hcl by lia. apply andb_true_r.
  - apply get_tag_eq. intros n Hn. rewrite Hcl by lia.
    replace (n =? 1) with false by lia. apply andb_true_r.
  - unfold set_clean. cbn [metadata]. apply Z.land_nonneg. left. lia.
  - unfold set_clean. cbn [metadata]. apply land_range, Hm.
  - rewrite is_dirty_bit, Hdi by lia. apply orb_true_r.
  - rewrite !is_valid_bit, Hdi by lia. apply orb_false_r.
  - apply get_tag_eq. intros n Hn. rewrite Hdi by lia.
    replace (n =? 1) with false by lia. apply orb_false_r.
  - unfold set_dirty. cbn [metadata]. apply Z.lor_nonneg. lia.
  - unfold set_dirty. cbn [metadata]. apply lor_range; [exact Hm|lia].
  - intros Hd. destruct l as [d m]. unfold set_clean, set_dirty.
    cbn [metadata data] in *. f_equal.
    apply Z.bits_inj'. intros n Hn. change 2 with (2 ^ 1).
    rewrite (clear_flag_bits (Z.lor m (2 ^ 1)) 1 n)
      by (try apply lor_range; lia).
    rewrite Z.lor_spec, Z.pow2_bits_eqb by lia. rewrite (Z.eqb_sym 1 n).
    rewrite is_dirty_bit in Hd. cbn [metadata] in Hd.
    destruct (Z.eqb_spec n 1) as [->|Hne].
    + rewrite Hd. reflexivity.
    + now rewrite orb_false_r, andb_true_r.
Qed.


Lemma zero_line_wf : line_wf zero_line.
Proof. split; [reflexivity|]. unfold metadata_ok. cbn. lia. Qed.

Lemma deref_wf dc p : dcache_wf dc -> line_wf (deref dc p).
Proof.
  intros [_ Hall]. unfold deref. destruct (lines dc !! p) as [l|] eqn:E.
  - cbn. exact (Forall_lookup_1 _ _ _ _ Hall E).
  - cbn. apply zero_line_wf.
Qed.

Lemma store_wf dc p l : dcache_wf dc -> line_wf l -> dcache_wf (store dc p l).
Proof.
  intros [Hok Hall] Hl. split; [now apply store_ok|].
  unfold store. cbn [lines]. now apply Forall_insert.
Qed.

Lemma store_deref dc p : store dc p (deref dc p) = dc.
Proof.
  destruct dc as [ls]. unfold store, deref. cbn [lines]. f_equal.
  destruct (ls !! p) as [l|] eqn:E.
  - cbn. now apply list_insert_id.
  - cbn. apply list_insert_ge. now apply lookup_ge_None_1.
Qed.

Lemma tag_field_range t b :
  0 <= b < 4096 -> 0 <= Z.lor (u32 (Z.shiftl t 12)) b < 2 ^ 32.
Proof. intros Hb. apply lor_range; [apply u32_range|lia]. Qed.

Lemma land_1_range m : 0 <= Z.land m 1 < 4096.
Proof.
  change 1 with (Z.ones 1). rewrite Z.land_ones by lia.
  assert (0 <= m mod 2 ^ 1 < 2 ^ 1) by (apply Z.mod_pos_bound; lia). lia.
Qed.

(** X1.  The index of the line of [vaddr] is [(vaddr / 16) mod 512]: it is
    below 512, addresses 8 KiB apart share a line, and so do the 16
    addresses of one block. *)
Theorem line_index vaddr :
  Z.of_nat (get_line vaddr) = (vaddr / 16) mod 512 /\
  (get_line vaddr < NUM_LINES)%nat /\
  (forall k, get_line (vaddr + 8192 * k) = get_line vaddr) /\
  (forall d, 0 <= d < 16 -> get_line (16 * (vaddr / 16) + d) = get_line vaddr).
Proof.
  assert (Hidx : forall v, get_line v = Z.to_nat ((v / 16) mod 512)).
  { intros v. unfold get_line. f_equal.
    change 0x1FF with (Z.ones 9). rewrite Z.land_ones by lia.
    rewrite Z.shiftr_div_pow2 by lia. reflexivity. }
  repeat split.
  - rewrite Hidx. apply Z2Nat.id. apply Z.mod_pos_bound. lia.
  - apply get_line_lt.
  - intros k. rewrite !Hidx. f_equal.
    replace (vaddr + 8192 * k) with (vaddr + (512 * k) * 16) by lia.
    rewrite Z.div_add by lia.
    replace (vaddr / 16 + 512 * k) with (vaddr / 16 + k * 512) by lia.
    apply Z.mod_add. lia.
  - intros d Hd. rewrite !Hidx. f_equal. f_equal.
    replace (16 * (vaddr / 16) + d) with (d + (vaddr / 16) * 16) by lia.
    rewrite Z.div_add by lia. rewrite (Z.div_small d 16) by lia. lia.
Qed.

(** X2.  [vr4300_dcache_fill] keeps the cache at 512 lines and changes
    the line of [vaddr] only: every other line, and every probe at an
    address of another line, is as before. *)
Theorem fill_touches_one_line dc vaddr paddr src :
  dcache_ok dc ->
  let dc' := vr4300_dcache_fill dc vaddr paddr src in
  dcache_ok dc' /\
  (forall q, q <> get_line vaddr -> deref dc' q = deref dc q) /\
  (forall v, get_line v <> get_line vaddr ->
     forall p, vr4300_dcache_probe dc' v p = vr4300_dcache_probe dc v p).
Proof.
  intros Hok dc'. split; [now apply fill_ok|]. split.
  - intros q Hq. subst dc'. unfold vr4300_dcache_fill.
    apply deref_store_ne. congruence.
  - intros v Hv p. unfold vr4300_dcache_probe, get_line_const.
    fold (get_line v). subst dc'. unfold vr4300_dcache_fill.
    rewrite deref_store_ne by congruence. reflexivity.
Qed.

(** X3.  A fill replaces whatever the line held, and nothing is kept of
    an earlier fill of the same line, dirty or not: two fills leave the cache
    the second alone would, and right after a fill
    [vr4300_dcache_should_flush_line] reports nothing. *)
Theorem fill_overwrites dc v1 p1 s1 v2 p2 s2 :
  get_line v1 = get_line v2 ->
  vr4300_dcache_fill (vr4300_dcache_fill dc v1 p1 s1) v2 p2 s2
    = vr4300_dcache_fill dc v2 p2 s2 /\
  vr4300_dcache_should_flush_line (vr4300_dcache_fill dc v1 p1 s1) v2 = None.
Proof.
  intros Hidx. split.
  - unfold vr4300_dcache_fill. rewrite Hidx. unfold store. cbn [lines].
    rewrite list_insert_insert_eq. reflexivity.
  - unfold vr4300_dcache_should_flush_line. rewrite <- Hidx.
    unfold vr4300_dcache_fill.
    destruct (decide (get_line v1 < length (lines dc))%nat) as [Hlt|Hge].
    + rewrite deref_store_eq by exact Hlt.
      unfold set_clean, validate_line, memcpy_data, is_dirty. cbn [metadata].
      rewrite metadata_clear by lia.
      change (Z.land 1 (Z.lnot 2)) with 1.
      rewrite metadata_flags by lia. reflexivity.
    + unfold deref at 1 2, store. cbn [lines].
      rewrite list_insert_ge by lia. rewrite lookup_ge_None_2 by lia.
      reflexivity.
Qed.

(** X4.  After [vr4300_dcache_fill(dcache, vaddr, paddr, ...)], a probe at
    [vaddr] hits exactly for the physical addresses [paddr'] with
    [paddr' >> 4] equal to the low 20 bits of [paddr >> 4]. *)
Theorem fill_probe_hits_iff dc vaddr paddr src paddr' :
  dcache_ok dc ->
  vr4300_dcache_probe (vr4300_dcache_fill dc vaddr paddr src) vaddr paddr'
  = if Z.shiftr paddr 4 mod 2 ^ 20 =? Z.shiftr paddr' 4
    then Some (get_line vaddr) else None.
Proof.
  intros Hok. unfold vr4300_dcache_probe, get_line_const.
  fold (get_line vaddr).
  assert (Htag := fill_tag dc vaddr paddr src Hok).
  unfold vr4300_dcache_get_tag in Htag. rewrite Htag.
  rewrite fill_line by exact Hok. unfold is_valid. cbn [metadata].
  rewrite metadata_flags by lia. cbn. now rewrite andb_true_r.
Qed.

(** X5.  After [vr4300_dcache_invalidate] every probe at [vaddr] misses;
    the tag, the dirty bit and the data of the line are as before (the
    comment: "leaves the physical tag untouched"), and so is every other
    line. *)
Theorem invalidate_effect dc vaddr :
  dcache_ok dc -> metadata_ok (deref dc (get_line vaddr)) ->
  let old := deref dc (get_line vaddr) in
  let dc' := vr4300_dcache_invalidate dc vaddr in
  let new := deref dc' (get_line vaddr) in
  (forall paddr, vr4300_dcache_probe dc' vaddr paddr = None) /\
  vr4300_dcache_get_tag new = vr4300_dcache_get_tag old /\
  is_dirty new = is_dirty old /\
  data new = data old /\
  (forall q, q <> get_line vaddr -> deref dc' q = deref dc q).
Proof.
  intros Hok Hm old dc' new.
  assert (Hnew : new = invalidate_line old).
  { subst new dc' old. unfold vr4300_dcache_invalidate.
    now rewrite deref_store_at. }
  destruct (flag_operations old Hm)
    as ((Hv & Hd & Ht & Hdata & _) & _).
  split; [|rewrite Hnew; repeat split; try assumption].
  - intros paddr. unfold vr4300_dcache_probe, get_line_const.
    fold (get_line vaddr). fold dc' new. rewrite Hnew, Hv.
    now rewrite andb_false_r.
  - intros q Hq. subst dc'. unfold vr4300_dcache_invalidate.
    apply deref_store_ne. congruence.
Qed.


(** X9.  On a 32-bit metadata word, [invalidate_line], [set_clean] and
    [set_dirty] each change their own bit and nothing else: the other flag,
    the tag and the data are as before, the word stays within 32 bits, and
    [set_clean] undoes [set_dirty] on a clean line. *)
Theorem flag_operations_independent l :
  metadata_ok l ->
  (is_valid (invalidate_line l) = false /\
   is_dirty (invalidate_line l) = is_dirty l /\
   get_tag (invalidate_line l) = get_tag l /\
   data (invalidate_line l) = data l /\
   metadata_ok (invalidate_line l)) /\
  (is_dirty (set_clean l) = false /\
   is_valid (set_clean l) = is_valid l /\
   get_tag (set_clean l) = get_tag l /\
   data (set_clean l) = data l /\
   metadata_ok (set_clean l)) /\
  (is_dirty (set_dirty l) = true /\
   is_valid (set_dirty l) = is_valid l /\
   get_tag (set_dirty l) = get_tag l /\
   data (set_dirty l) = data l /\
   metadata_ok (set_dirty l)) /\
  (is_dirty l = false -> set_clean (set_dirty l) = l).
Proof. exact (flag_operations l). Qed.

Lemma invalidate_line_invalid l :
  metadata_ok l -> is_valid l = false -> invalidate_line l = l.
Proof.
  intros Hm Hv. destruct l as [d m]. unfold invalidate_line, metadata_ok in *.
  cbn [data metadata] in *. f_equal.
  rewrite is_valid_bit in Hv. cbn [metadata] in Hv.
  apply Z.bits_inj'. intros n Hn. change 1 with (2 ^ 0).
  rewrite (clear_flag_bits m 0 n) by lia.
  destruct (Z.eqb_spec n 0) as [->|Hne].
  - now rewrite Hv.
  - apply andb_true_r.
Qed.

(** X6.  [vr4300_dcache_invalidate_hit] leaves the cache as it is when
    the probe at the same addresses misses, does what
    [vr4300_dcache_invalidate] does when it hits, and in both cases the
    probe misses afterwards. *)
Theorem invalidate_hit_effect dc vaddr paddr :
  (vr4300_dcache_probe dc vaddr paddr = None ->
   vr4300_dcache_invalidate_hit dc vaddr paddr = dc) /\
  (vr4300_dcache_probe dc vaddr paddr = Some (get_line vaddr) ->
   vr4300_dcache_invalidate_hit dc vaddr paddr
   = vr4300_dcache_invalidate dc vaddr) /\
  vr4300_dcache_probe (vr4300_dcache_invalidate_hit dc vaddr paddr)
    vaddr paddr = None.
Proof.
  unfold vr4300_dcache_probe, vr4300_dcache_invalidate_hit,
    vr4300_dcache_invalidate, get_line_const. fold (get_line vaddr).
  set (p := get_line vaddr). set (line := deref dc p).
  destruct ((get_tag line =? Z.shiftr paddr 4) && is_valid line) eqn:Hhit.
  - split; [discriminate|]. split; [reflexivity|].
    destruct (decide (p < length (lines dc))%nat) as [Hlt|Hge].
    + rewrite deref_store_eq by exact Hlt.
      now rewrite is_valid_invalidate_line, andb_false_r.
    + exfalso. subst line. unfold deref in Hhit.
      rewrite lookup_ge_None_2 in Hhit by lia. cbn in Hhit.
      now rewrite andb_false_r in Hhit.
  - split; [reflexivity|]. split; [discriminate|].
    fold line. now rewrite Hhit.
Qed.

(** X7.  On a line with a 32-bit metadata word,
    [vr4300_dcache_wb_invalidate] leaves the cache exactly as
    [vr4300_dcache_invalidate] does. *)
Theorem wb_invalidate_is_invalidate dc vaddr :
  metadata_ok (deref dc (get_line vaddr)) ->
  vr4300_dcache_wb_invalidate dc vaddr = vr4300_dcache_invalidate dc vaddr.
Proof.
  intros Hm. unfold vr4300_dcache_wb_invalidate, vr4300_dcache_invalidate.
  destruct (is_valid (deref dc (get_line vaddr))) eqn:Hv; [reflexivity|].
  rewrite invalidate_line_invalid by assumption.
  symmetry. apply store_deref.
Qed.

(** X8.  After [vr4300_dcache_set_tag(dcache, vaddr, tag)] a probe at
    [vaddr] hits exactly when the line was valid before and [paddr >> 4]
    is the low 20 bits of [tag]: setting the tag never validates a line. *)
Theorem set_tag_probe dc vaddr tag paddr :
  dcache_ok dc ->
  vr4300_dcache_probe (vr4300_dcache_set_tag dc vaddr tag) vaddr paddr
  = if (tag mod 2 ^ 20 =? Z.shiftr paddr 4)
       && is_valid (deref dc (get_line vaddr))
    then Some (get_line vaddr) else None.
Proof.
  intros Hok. unfold vr4300_dcache_probe, get_line_const.
  fold (get_line vaddr). unfold vr4300_dcache_set_tag.
  rewrite deref_store_at by exact Hok.
  unfold get_tag, set_tag, is_valid. cbn [metadata].
  rewrite metadata_tag by apply land_1_range.
  rewrite metadata_flags by (try apply land_1_range; lia).
  rewrite <- Z.land_assoc. reflexivity.
Qed.

(** X10.  Every operation of [dcache.c] keeps the cache as the C types
    have it: 512 lines, each with 16 data bytes and a metadata word within
    32 bits (for a fill, given the 16 source bytes [memcpy] reads). *)
Theorem operations_keep_wf dc :
  dcache_wf dc ->
  (forall vaddr paddr src,
     (LINE_SIZE <= length src)%nat ->
     dcache_wf (vr4300_dcache_fill dc vaddr paddr src)) /\
  (forall vaddr, dcache_wf (vr4300_dcache_invalidate dc vaddr)) /\
  (forall vaddr paddr, dcache_wf (vr4300_dcache_invalidate_hit dc vaddr paddr)) /\
  (forall vaddr tag, dcache_wf (vr4300_dcache_set_tag dc vaddr tag)) /\
  (forall vaddr, dcache_wf (vr4300_dcache_wb_invalidate dc vaddr)).
Proof.
  intros Hwf.
  assert (Hinv : forall p, line_wf (invalidate_line (deref dc p))).
  { intros p. destruct (deref_wf dc p Hwf) as [Hlen Hm].
    destruct (flag_operations _ Hm) as ((_ & _ & _ & Hd & Hm') & _).
    split; [now rewrite Hd|exact Hm']. }
  repeat split.
  - apply fill_ok, Hwf.
  - unfold vr4300_dcache_fill.
    apply (store_wf dc _ _ Hwf). split.
    + cbn [set_clean validate_line memcpy_data data].
      rewrite length_take. unfold LINE_SIZE in *. lia.
    + unfold metadata_ok, set_clean, validate_line. cbn [metadata].
      apply land_range, tag_field_range. lia.
  - apply store_ok, Hwf.
  - apply (store_wf dc _ _ Hwf), Hinv.
  - unfold vr4300_dcache_invalidate_hit.
    destruct (_ && _); [apply store_ok|]; apply Hwf.
  - unfold vr4300_dcache_invalidate_hit.
    destruct (_ && _); [apply (store_wf dc _ _ Hwf), Hinv|apply Hwf].
  - apply store_ok, Hwf.
  - unfold vr4300_dcache_set_tag. apply (store_wf dc _ _ Hwf).
    destruct (deref_wf dc (get_line vaddr) Hwf) as [Hlen Hm].
    split; [exact Hlen|]. unfold metadata_ok, set_tag. cbn [metadata].
    apply tag_field_range, land_1_range.
  - unfold vr4300_dcache_wb_invalidate.
    destruct (is_valid _); [apply store_ok|]; apply Hwf.
  - unfold vr4300_dcache_wb_invalidate.
    destruct (is_valid _); [apply (store_wf dc _ _ Hwf), Hinv|apply Hwf].
Qed.

Lemma empty_dcache_wf : dcache_wf empty_dcache.
Proof.
  split; [reflexivity|]. unfold empty_dcache. cbn [lines].
  apply Forall_replicate, zero_line_wf.
Qed.

Lemma dirty_line_metadata_ok : metadata_ok (deref dirty_dcache (get_line 0)).
Proof.
  unfold metadata_ok.
  change (metadata (deref dirty_dcache (get_line 0))) with 3. lia.
Qed.

Lemma fill_touches_one_line_example :
  dcache_ok dirty_dcache /\
  deref (vr4300_dcache_fill dirty_dcache 0x10 0x10 sample_block) 0%nat
  = deref dirty_dcache 0%nat.
Proof.
  assert (Hok : dcache_ok dirty_dcache) by reflexivity.
  split; [exact Hok|].
  apply (proj1 (proj2 (fill_touches_one_line dirty_dcache 0x10 0x10
                         sample_block Hok))).
  discriminate.
Defined.

Lemma fill_overwrites_example :
  get_line 0 = get_line 0x2000 /\
  vr4300_dcache_should_flush_line
    (vr4300_dcache_fill dirty_dcache 0 0 sample_block) 0x2000 = None.
Proof.
  assert (Hidx : get_line 0 = get_line 0x2000) by reflexivity.
  split; [exact Hidx|].
  exact (proj2 (fill_overwrites dirty_dcache 0 0 sample_block 0x2000 0
                  sample_block Hidx)).
Defined.

Lemma fill_probe_hits_iff_example :
  dcache_ok empty_dcache /\
  vr4300_dcache_probe
    (vr4300_dcache_fill empty_dcache 0x90000000 0x10000040 sample_block)
    0x90000000 0x40 = Some 0%nat.
Proof.
  assert (Hok : dcache_ok empty_dcache) by reflexivity.
  split; [exact Hok|].
  exact (fill_probe_hits_iff empty_dcache 0x90000000 0x10000040 sample_block
           0x40 Hok).
Defined.

Lemma invalidate_effect_example :
  dcache_ok dirty_dcache /\
  metadata_ok (deref dirty_dcache (get_line 0)) /\
  is_dirty (deref (vr4300_dcache_invalidate dirty_dcache 0) (get_line 0))
  = true.
Proof.
  assert (Hok : dcache_ok dirty_dcache) by reflexivity.
  assert (Hm := dirty_line_metadata_ok).
  split; [exact Hok|]. split; [exact Hm|].
  exact (proj1 (proj2 (proj2 (invalidate_effect dirty_dcache 0 Hok Hm)))).
Defined.

Lemma wb_invalidate_is_invalidate_example :
  metadata_ok (deref dirty_dcache (get_line 0)) /\
  vr4300_dcache_wb_invalidate dirty_dcache 0
  = vr4300_dcache_invalidate dirty_dcache 0.
Proof.
  assert (Hm := dirty_line_metadata_ok).
  split; [exact Hm|].
  exact (wb_invalidate_is_invalidate dirty_dcache 0 Hm).
Defined.

Lemma set_tag_probe_example :
  dcache_ok empty_dcache /\
  vr4300_dcache_probe (vr4300_dcache_set_tag empty_dcache 0 0x12345)
    0 0x123450 = None.
Proof.
  assert (Hok : dcache_ok empty_dcache) by reflexivity.
  split; [exact Hok|].
  exact (set_tag_probe empty_dcache 0 0x12345 0x123450 Hok).
Defined.

Lemma flag_operations_independent_example :
  let l := {| data := sample_block; metadata := 0x12345001 |} in
  metadata_ok l /\ set_clean (set_dirty l) = l.
Proof.
  intros l.
  assert (Hm : metadata_ok l) by (unfold metadata_ok, l; cbn; lia).
  split; [exact Hm|].
  exact (proj2 (proj2 (proj2 (flag_operations_independent l Hm))) eq_refl).
Defined.

Lemma operations_keep_wf_example :
  dcache_wf empty_dcache /\
  dcache_wf (vr4300_dcache_fill empty_dcache 0x80001000 0x1000 sample_block).
Proof.
  assert (Hwf := empty_dcache_wf).
  split; [exact Hwf|].
  apply (proj1 (operations_keep_wf empty_dcache Hwf)).
  unfold LINE_SIZE, sample_block. cbn [length]. lia.
Defined.


End DcacheMore.

(** ** More on the log file *)

Section DebugMore.
Import Host Debug LogSpec Samples.

Lemma run_LOG_uses h f ms : forall w,
  log_fp w = Some f ->
  run_log_calls h (LOG_uses ms) w
  = ([], {| log_fp := Some f; trace := trace w ++ log_records f ms |}).
Proof.
  induction ms as [|[fmt args] ms IH]; intros w Hw.
  - cbn. unfold mret, M_ret. rewrite app_nil_r. destruct w; cbn in *.
    now subst.
  - cbn [LOG_uses map run_log_calls fst snd]. unfold mbind, M_bind.
    rewrite (LOG_open fmt args w f Hw). cbn [fst snd].
    fold (LOG_uses ms). rewrite IH by (cbn; exact Hw).
    cbn [trace log_records map fst snd]. now rewrite <- app_assoc.
Qed.

(** X11.  After an [open_log_file] that succeeds (it returns 0), every use
    of [LOG] writes one record to the file [fopen] returned, in the order
    of the uses, and [log_fp] stays that file. *)
Theorem open_then_LOG h path f ms w :
  fopen h path "w" = Some f ->
  run_log_calls h (do_open_log_file path :: LOG_uses ms) w
  = ([0], {| log_fp := Some f; trace := trace w ++ log_records f ms |}).
Proof.
  intros Hf. cbn [run_log_calls]. unfold mbind, M_bind.
  rewrite (open_log_file_succeeds h path w f Hf). cbn [fst snd].
  rewrite (run_LOG_uses h f ms) by reflexivity. reflexivity.
Qed.

Lemma open_then_LOG_good_host :
  fopen good_host "cen64.log" "w" = Some 3%nat /\
  run_log_calls good_host
    [do_open_log_file "cen64.log"; do_LOG "a\n" []; do_LOG "b\n" []]
    init_world
  = ([0], {| log_fp := Some 3%nat;
             trace := [ev_fprintf 3%nat "a\n" []; ev_fprintf 3%nat "b\n" []] |}).
Proof.
  assert (Hf : fopen good_host "cen64.log" "w" = Some 3%nat) by reflexivity.
  split; [exact Hf|].
  exact (open_then_LOG good_host "cen64.log" 3%nat
           [("a\n", []); ("b\n", [])] init_world Hf).
Defined.

End DebugMore.

(** ** More on ROM loading *)

Section LoadRomsMore.
Import Host Debug Cen64 RomSpec.

Ltac run_io :=
  unfold mbind, M_bind, mret, M_ret, when, printf, close_rom_file, call;
  cbn [fst snd trace log_fp].

(** X12.  The return value of [load_roms] is the position (1 to 4: DD IPL,
    DD ROM, PIF ROM, cart) of the first ROM that is asked for and does not
    open, and 0 when every ROM asked for opens; the SHA-1 of the ROMs has
    no part in it. *)
Theorem load_roms_status h p1 p2 p3 p4 r1 r2 r3 r4 w :
  let rc := fst (fst (load_roms h p1 p2 p3 p4 r1 r2 r3 r4 w)) in
  rc = first_failure h (rom_requests p1 p2 p3 p4) 1 /\ 0 <= rc <= 4.
Proof.
  intros rc. subst rc.
  unfold load_roms, open_rom_file_if_path, rom_requests.
  cbn [first_failure]. unfold request_fails, attempted. cbn [fst snd negb orb].
  destruct p1 as [p1|], p2 as [p2|], p4 as [p4|]; cbn [nonnull andb];
  repeat match goal with
  | |- context [open_rom_file h ?p] =>
      let rc := fresh "rc" in
      destruct (open_rom_file h p) as [rc ?]; cbn [fst snd];
      destruct (nonzero rc)
  end;
  rewrite ?nonzero_0; run_io;
  repeat match goal with
  | |- context [validate_sha ?a ?b ?c] => destruct (validate_sha a b c)
  end; cbn; split; (reflexivity || lia).
Qed.


(** X13.  When [load_roms] fails it closes the ROMs it had opened, each
    once and in the order it opened them, and no other; when it succeeds it
    closes none. *)
Theorem load_roms_closes_opened h p1 p2 p3 p4 r1 r2 r3 r4 w :
  let r := load_roms h p1 p2 p3 p4 r1 r2 r3 r4 w in
  exists evs,
    trace (snd r) = trace w ++ evs /\
    closed_roms evs
    = if fst (fst r) =? 0 then []
      else opened_before_failure h (rom_requests p1 p2 p3 p4).
Proof.
  intros r. subst r.
  unfold load_roms, open_rom_file_if_path, rom_requests.
  cbn [opened_before_failure]. unfold request_fails, attempted.
  cbn [fst snd negb orb].
  destruct p1 as [p1|], p2 as [p2|], p4 as [p4|]; cbn [nonnull andb];
  repeat match goal with
  | |- context [open_rom_file h ?p] =>
      let rc := fresh "rc" in
      destruct (open_rom_file h p) as [rc ?]; cbn [fst snd];
      destruct (nonzero rc)
  end;
  rewrite ?nonzero_0; run_io;
  repeat match goal with
  | |- context [validate_sha ?a ?b ?c] => destruct (validate_sha a b c)
  end; cbn; rewrite <- ?app_assoc;
  (eexists; split; [first [reflexivity | symmetry; apply app_nil_r]|]);
  reflexivity.
Qed.

End LoadRomsMore.

(** ** Loading the paks *)

Section LoadPaksMore.
Import Host Debug Cen64 RomSpec.

Lemma pak_entry_kept_refl o : pak_entry_kept o o.
Proof. now left. Qed.

Lemma has_pak_files_keys c c' :
  pak_keys c' = pak_keys c -> has_pak_files c' = has_pak_files c.
Proof.
  unfold pak_keys, has_pak_files. intros [= Hp Hm _ _]. now rewrite Hp, Hm.
Qed.

Lemma pak_loads_keys h c c' :
  pak_keys c' = pak_keys c -> pak_loads h c' = pak_loads h c.
Proof.
  unfold pak_keys, pak_loads. intros [= Hp Hm Hr Hs].
  now rewrite Hp, Hm, Hr, Hs.
Qed.

Lemma pak_entry_kept_trans o1 o2 o3 :
  pak_entry_kept o1 o2 -> pak_entry_kept o2 o3 -> pak_entry_kept o1 o3.
Proof.
  intros [->|(c & c' & -> & -> & Hk & Hf)]; [auto|].
  intros [->|(d & d' & [= <-] & -> & Hk' & Hf')].
  - right. exists c, c'. auto.
  - right. exists c, d'. repeat split; [congruence|exact Hf].
Qed.

(** Storing, at [i], a controller with the keys of the one that is there. *)
Lemma insert_kept (cs : list struct_controller) i c' j :
  let c := default zero_controller (cs !! i) in
  pak_keys c' = pak_keys c -> has_pak_files c = true ->
  pak_entry_kept (cs !! j) (<[i := c']> cs !! j) /\
  (j <> i -> <[i := c']> cs !! j = cs !! j).
Proof.
  intros c Hk Hf. split; [|intros Hne; now apply list_lookup_insert_ne].
  destruct (decide (j = i)) as [->|Hne].
  - destruct (cs !! i) as [c0|] eqn:E.
    + right. exists c0, c'. rewrite list_lookup_insert_eq
        by (eapply lookup_lt_Some; eauto). auto.
    + left. rewrite list_insert_ge by (now apply lookup_ge_None_1).
      exact E.
  - left. now apply list_lookup_insert_ne.
Qed.


Lemma paks_load_ext h cs cs' n : forall i,
  (forall j, (i <= j)%nat -> cs' !! j = cs !! j) ->
  paks_load h cs' i n = paks_load h cs i n.
Proof.
  unfold paks_load. induction n as [|n IH]; intros i Hext; [reflexivity|].
  cbn [seq forallb]. rewrite Hext by lia. f_equal.
  apply IH. intros j Hj. apply Hext. lia.
Qed.

(** One iteration that stores [cs1] and goes on. *)
Lemma loop_goes_on h n i (cs cs1 : list struct_controller) (r : Z * list struct_controller) :
  pak_loads h (default zero_controller (cs !! i)) = true ->
  length cs1 = length cs ->
  (forall j, pak_entry_kept (cs !! j) (cs1 !! j) /\
             (j <> i -> cs1 !! j = cs !! j)) ->
  (fst r = (if paks_load h cs1 (S i) n then 0 else -1) /\
   length (snd r) = length cs1 /\
   forall j, pak_entry_kept (cs1 !! j) (snd r !! j) /\
             ((j < S i \/ S i + n <= j)%nat -> snd r !! j = cs1 !! j)) ->
  fst r = (if paks_load h cs i (S n) then 0 else -1) /\
  length (snd r) = length cs /\
  forall j, pak_entry_kept (cs !! j) (snd r !! j) /\
            ((j < i \/ i + S n <= j)%nat -> snd r !! j = cs !! j).
Proof.
  intros Hload Hlen Hcs1 (Hrc & Hlen' & Hr).
  split; [|split].
  - rewrite Hrc. unfold paks_load at 2. cbn [seq forallb]. rewrite Hload.
    cbn [andb]. fold (paks_load h cs (S i) n).
    rewrite (paks_load_ext h cs cs1); [reflexivity|].
    intros j Hj. apply Hcs1. lia.
  - congruence.
  - intros j. destruct (Hr j) as [Hk Hsame]. destruct (Hcs1 j) as [Hk1 Hsame1].
    split; [eapply pak_entry_kept_trans; eauto|].
    intros Hj. rewrite Hsame by lia. apply Hsame1. lia.
Qed.

(** One iteration that stores [cs1] and returns -1. *)
Lemma loop_stops h n i (cs cs1 : list struct_controller) :
  pak_loads h (default zero_controller (cs !! i)) = false ->
  length cs1 = length cs ->
  (forall j, pak_entry_kept (cs !! j) (cs1 !! j) /\
             (j <> i -> cs1 !! j = cs !! j)) ->
  -1 = (if paks_load h cs i (S n) then 0 else -1) /\
  length cs1 = length cs /\
  forall j, pak_entry_kept (cs !! j) (cs1 !! j) /\
            ((j < i \/ i + S n <= j)%nat -> cs1 !! j = cs !! j).
Proof.
  intros Hload Hlen Hcs1. split; [|split; [exact Hlen|]].
  - unfold paks_load. cbn [seq forallb]. now rewrite Hload.
  - intros j. destruct (Hcs1 j) as [Hk Hsame]. split; [exact Hk|].
    intros Hj. apply Hsame. lia.
Qed.

Lemma load_paks_loop_spec h n : forall i cs w,
  let r := fst (load_paks_loop h n i cs w) in
  fst r = (if paks_load h cs i n then 0 else -1) /\
  length (snd r) = length cs /\
  forall j, pak_entry_kept (cs !! j) (snd r !! j) /\
            ((j < i \/ i + n <= j)%nat -> snd r !! j = cs !! j).
Proof.
  induction n as [|n IH]; intros i cs w r; subst r.
  - cbn. split; [reflexivity|]. split; [reflexivity|].
    intros j. split; [apply pak_entry_kept_refl|reflexivity].
  - cbn [load_paks_loop].
    set (c := default zero_controller (cs !! i)).
    assert (Hc : c = default zero_controller (cs !! i)) by reflexivity.
    destruct (bool_decide (pak c = PAK_MEM) && nonnull (mempak_path c))
      eqn:Hmem.
    + (* a memory pak with a path *)
      assert (Hfiles : has_pak_files c = true)
        by (unfold has_pak_files; now rewrite Hmem).
      assert (Hloads : pak_loads h c
                = negb (nonzero (fst (fst (open_save_file h (mempak_path c)
                                             MEMPAK_SIZE)))))
        by (unfold pak_loads; now rewrite Hmem).
      destruct (open_save_file h (mempak_path c) MEMPAK_SIZE)
        as [[rc save] created].
      cbn [fst snd] in Hloads.
      destruct (nonzero rc); cbn [negb] in Hloads;
        unfold mbind, M_bind, mret, M_ret; cbn [fst snd].
      * apply loop_stops; [exact Hloads|apply length_insert|].
        intros j. now apply insert_kept.
      * eapply loop_goes_on; [exact Hloads|apply length_insert| |apply IH].
        intros j. now apply insert_kept.
    + destruct (bool_decide (pak c = PAK_TRANSFER)) eqn:Htr.
      * (* a transfer pak *)
        assert (Hfiles : has_pak_files c = true)
          by (unfold has_pak_files; rewrite Htr; apply orb_true_r).
        assert (Hloads : pak_loads h c
                  = (negb (nonnull (tpak_rom_path c))
                     || negb (nonzero (fst (open_rom_file h (tpak_rom_path c)))))
                    && (negb (nonnull (tpak_save_path c))
                        || negb (nonzero
                                   (fst (open_gb_save h (tpak_save_path c))))))
          by (unfold pak_loads; now rewrite Hmem, Htr).
        assert (Hrom : exists rc rom,
                  (if nonnull (tpak_rom_path c)
                   then open_rom_file h (tpak_rom_path c)
                   else (0, tpak_rom c)) = (rc, rom) /\
                  negb (nonnull (tpak_rom_path c))
                  || negb (nonzero (fst (open_rom_file h (tpak_rom_path c))))
                  = negb (nonzero rc)).
        { destruct (nonnull (tpak_rom_path c)).
          - destruct (open_rom_file h (tpak_rom_path c)) as [rc rom].
            now exists rc, rom.
          - now exists 0, (tpak_rom c). }
        destruct Hrom as (rc & rom & -> & Hrc). rewrite Hrc in Hloads.
        cbn [tpak_save_path tpak_save].
        assert (Hsave : exists rc2 save,
                  (if nonnull (tpak_save_path c)
                   then open_gb_save h (tpak_save_path c)
                   else (0, tpak_save c)) = (rc2, save) /\
                  negb (nonnull (tpak_save_path c))
                  || negb (nonzero (fst (open_gb_save h (tpak_save_path c))))
                  = negb (nonzero rc2)).
        { destruct (nonnull (tpak_save_path c)).
          - destruct (open_gb_save h (tpak_save_path c)) as [rc2 save].
            now exists rc2, save.
          - now exists 0, (tpak_save c). }
        destruct Hsave as (rc2 & save & -> & Hrc2). rewrite Hrc2 in Hloads.
        destruct (nonzero rc); cbn [negb andb] in Hloads;
          unfold mbind, M_bind, mret, M_ret; cbn [fst snd].
        -- apply loop_stops; [exact Hloads|apply length_insert|].
           intros j. now apply insert_kept.
        -- rewrite list_insert_insert_eq.
           destruct (nonzero rc2); cbn [negb] in Hloads; cbn [fst snd].
           ++ apply loop_stops; [exact Hloads|apply length_insert|].
              intros j. now apply insert_kept.
           ++ eapply loop_goes_on;
                [exact Hloads|apply length_insert| |apply IH].
              intros j. now apply insert_kept.
      * (* no pak file *)
        assert (Hloads : pak_loads h c = true)
          by (unfold pak_loads; now rewrite Hmem, Htr).
        eapply loop_goes_on; [exact Hloads|reflexivity| |apply IH].
        intros j. split; [apply pak_entry_kept_refl|reflexivity].
Qed.

(** X14.  [load_paks] returns 0 when the pak files of the four controllers
    can all be opened, and -1 otherwise. *)
Theorem load_paks_status h cs w :
  fst (fst (load_paks h cs w)) = (if paks_load h cs 0 4 then 0 else -1).
Proof. exact (proj1 (load_paks_loop_spec h 4 0 cs w)). Qed.

(** X15.  [load_paks] keeps the length of the controller array; each entry
    is unchanged or is a controller with pak files whose pak type and
    paths are as before; entries from the fifth on, and controllers
    without pak files, are unchanged. *)
Theorem load_paks_keeps_controllers h cs w :
  let cs' := snd (fst (load_paks h cs w)) in
  length cs' = length cs /\
  (forall j, pak_entry_kept (cs !! j) (cs' !! j)) /\
  (forall j, (4 <= j)%nat -> cs' !! j = cs !! j) /\
  (forall j c, cs !! j = Some c -> has_pak_files c = false ->
               cs' !! j = Some c).
Proof.
  intros cs'. subst cs'.
  destruct (load_paks_loop_spec h 4 0 cs w) as (_ & Hlen & Hj).
  split; [exact Hlen|]. split; [intros j; apply Hj|]. split.
  - intros j Hge. apply Hj. lia.
  - intros j c Hc Hno. destruct (Hj j) as [[Hsame|Hch] _].
    + unfold load_paks. now rewrite Hsame.
    + destruct Hch as (c0 & c' & Hc0 & _ & _ & Hyes). congruence.
Qed.

End LoadPaksMore.

(** ** What [cen64_main] calls *)

Section EffectFacts.
Import Host Debug Cen64 Observe Effects.

Lemma plain_ret P {A} (a : A) : plain P (mret a).
Proof. intros w. split; [reflexivity|]. exists []. now rewrite app_nil_r. Qed.

Lemma plain_bind P {A B} (m : M A) (k : A -> M B) :
  plain P m -> (forall a, plain P (k a)) -> plain P (m ≫= k).
Proof.
  intros Hm Hk w. unfold mbind, M_bind.
  destruct (Hm w) as (Hl & evs & Ht & Hp).
  destruct (Hk (fst (m w)) (snd (m w))) as (Hl' & evs' & Ht' & Hp').
  split; [congruence|]. exists (evs ++ evs'). split.
  - rewrite Ht', Ht. now rewrite app_assoc.
  - now apply Forall_app.
Qed.

Lemma plain_call (P : event -> Prop) e : P e -> plain P (call e).
Proof.
  intros He w. split; [reflexivity|]. exists [e]. split; [reflexivity|].
  now constructor.
Qed.

Lemma plain_when P c m : plain P m -> plain P (when c m).
Proof. intros Hm. destruct c; [exact Hm|apply plain_ret]. Qed.

Lemma plain_get_log_fp P : plain P get_log_fp.
Proof. intros w. split; [reflexivity|]. exists []. now rewrite app_nil_r. Qed.

Lemma plain_weaken (P Q : event -> Prop) {A} (m : M A) :
  (forall e, P e -> Q e) -> plain P m -> plain Q m.
Proof.
  intros HPQ Hm w. destruct (Hm w) as (Hl & evs & Ht & Hp).
  split; [exact Hl|]. exists evs. split; [exact Ht|].
  eapply Forall_impl; eauto.
Qed.

Ltac event_ok :=
  cbn; first [exact I | tauto | solve [auto 20] | solve [repeat split]].

Ltac plain_steps :=
  repeat match goal with
  | |- forall _, _ => intros ?
  | |- plain _ (let x := _ in _) => cbv zeta
  | |- plain _ (mret _) => apply plain_ret
  | |- plain _ get_log_fp => apply plain_get_log_fp
  | |- plain _ (call _) => apply plain_call; event_ok
  | |- plain _ (printf _ _) => unfold printf
  | |- plain _ (fprintf _ _ _) => unfold fprintf
  | |- plain _ (fclose _) => unfold fclose
  | |- plain _ (close_rom_file _) => unfold close_rom_file
  | |- plain _ cen64_alloc_cleanup => unfold cen64_alloc_cleanup
  | |- plain _ (print_command_line_usage _) => unfold print_command_line_usage
  | |- plain _ (when false _) => exact (plain_ret _ tt)
  | |- plain _ (when _ _) => apply plain_when
  | |- plain _ (mbind _ _) => apply plain_bind
  | |- plain _ (if ?c then _ else _) => destruct c
  | |- plain _ (match ?x with _ => _ end) => destruct x
  end.

Lemma plain_load_roms h p1 p2 p3 p4 r1 r2 r3 r4 :
  plain load_roms_event (load_roms h p1 p2 p3 p4 r1 r2 r3 r4).
Proof. unfold load_roms. plain_steps. Qed.

Lemma plain_load_paks_loop h n : forall i cs,
  plain load_paks_event (load_paks_loop h n i cs).
Proof.
  induction n as [|n IH]; intros i cs; cbn [load_paks_loop].
  - apply plain_ret.
  - plain_steps; apply IH.
Qed.

Lemma plain_load_paks h cs : plain load_paks_event (load_paks h cs).
Proof. apply plain_load_paks_loop. Qed.

Lemma plain_LOG fmt args :
  plain (fun e => exists f, e = ev_fprintf f fmt args) (LOG fmt args).
Proof.
  unfold LOG. apply plain_bind; [apply plain_get_log_fp|].
  intros [f|]; [|apply plain_ret].
  apply plain_call. now exists f.
Qed.

Lemma plain_close_log_file :
  plain (fun e => e = ev_fclose None) close_log_file.
Proof.
  unfold close_log_file. apply plain_bind; [apply plain_get_log_fp|].
  intros [f|]; cbn; [apply plain_ret|]. apply plain_call. reflexivity.
Qed.

Lemma plain_run_device h d nv : plain run_event (run_device h d nv).
Proof. unfold run_device. plain_steps. Qed.

Lemma plain_create_and_run h o r1 r2 r3 r4 s1 s2 s3 cs :
  plain run_event (create_and_run h o r1 r2 r3 r4 s1 s2 s3 cs).
Proof.
  unfold create_and_run.
  repeat match goal with
  | |- plain _ (run_device _ _ _) => apply plain_run_device
  | |- _ => progress plain_steps
  end.
Qed.


Ltac weaken_ok :=
  let e := fresh "e" in
  let He := fresh "He" in
  intros e He; destruct e; cbn in He |- *;
  try exact I; try contradiction;
  try (lazymatch type of He with
       | ex _ => destruct He as [? He]; discriminate He
       | _ = _ => discriminate He
       end).

Ltac plain_all_with wk :=
  repeat match goal with
  | |- plain _ (load_roms _ _ _ _ _ _ _ _ _) =>
      eapply plain_weaken; [|apply plain_load_roms]; wk
  | |- plain _ (load_paks _ _) =>
      eapply plain_weaken; [|apply plain_load_paks]; wk
  | |- plain _ (LOG _ _) =>
      eapply plain_weaken; [|apply plain_LOG]; wk
  | |- plain _ (create_and_run _ _ _ _ _ _ _ _ _ _) =>
      eapply plain_weaken; [|apply plain_create_and_run]; wk
  | |- plain _ close_log_file =>
      eapply plain_weaken; [|apply plain_close_log_file]; wk
  | |- _ => progress plain_steps
  end.

Ltac plain_all := plain_all_with weaken_ok.

Lemma emits_ret I P {A} (a : A) : emits I P (mret a).
Proof.
  intros w Hw. split; [exact Hw|]. exists []. now rewrite app_nil_r.
Qed.

Lemma emits_bind I P {A B} (m : M A) (k : A -> M B) :
  emits I P m -> (forall a, emits I P (k a)) -> emits I P (m ≫= k).
Proof.
  intros Hm Hk w Hw. unfold mbind, M_bind.
  destruct (Hm w Hw) as (Hl & evs & Ht & Hp).
  destruct (Hk (fst (m w)) (snd (m w)) Hl) as (Hl' & evs' & Ht' & Hp').
  split; [exact Hl'|]. exists (evs ++ evs'). split.
  - rewrite Ht', Ht. now rewrite app_assoc.
  - now apply Forall_app.
Qed.

Lemma emits_plain I P {A} (m : M A) : plain P m -> emits I P m.
Proof.
  intros Hm w Hw. destruct (Hm w) as (Hl & Hev).
  split; [now rewrite Hl|exact Hev].
Qed.

Lemma emits_plain_bind I P {A B} (m : M A) (k : A -> M B) :
  plain P m -> (forall a, emits I P (k a)) -> emits I P (m ≫= k).
Proof. intros Hm. apply emits_bind. now apply emits_plain. Qed.

(** After [open_log_file], either [fopen] failed and the call returned 1,
    or a log file is open and the call returned 0. *)
Lemma emits_open_log_file_bind P {B} h path (k : Z -> M B) :
  (fopen h path "w" = None -> emits any_log P (k 1)) ->
  (forall f, fopen h path "w" = Some f -> emits log_open P (k 0)) ->
  emits any_log P (open_log_file h path ≫= k).
Proof.
  intros Hfail Hopen w _. unfold mbind, M_bind.
  destruct (fopen h path "w") as [f|] eqn:Hf.
  - rewrite (open_log_file_succeeds h path w f Hf). cbn [fst snd].
    destruct (Hopen f eq_refl {| log_fp := Some f; trace := trace w |})
      as (_ & Hev); [discriminate|].
    split; [exact I|exact Hev].
  - rewrite (open_log_file_fails h path w Hf). cbn [fst snd].
    exact (Hfail eq_refl {| log_fp := None; trace := trace w |} I).
Qed.

(** With a log file open, [close_log_file] does nothing. *)
Lemma emits_close_log_file_open P : emits log_open P close_log_file.
Proof.
  intros w Hw. unfold close_log_file, mbind, M_bind, get_log_fp.
  cbn [fst snd]. destruct (log_fp w) as [f|] eqn:Hf; [|contradiction].
  cbn. split; [now rewrite Hf|]. exists []. now rewrite app_nil_r.
Qed.

Lemma emits_release_resources_open o r1 r2 r3 r4 :
  emits log_open not_fclose (release_resources o r1 r2 r3 r4).
Proof.
  unfold release_resources.
  apply emits_plain_bind; [plain_all|intros _].
  apply emits_plain_bind; [plain_all|intros _].
  apply emits_plain_bind; [plain_all|intros _].
  apply emits_bind.
  { destruct (nonnull (log_path o));
      [apply emits_close_log_file_open|apply emits_ret]. }
  intros _. apply emits_plain. plain_all.
Qed.

Lemma emits_release_resources_no_log o r1 r2 r3 r4 :
  log_path o = None ->
  emits any_log not_fclose (release_resources o r1 r2 r3 r4).
Proof.
  intros Hlog. unfold release_resources. rewrite Hlog. cbn [nonnull].
  apply emits_plain. plain_all.
Qed.

Ltac walk_no_fclose :=
  repeat match goal with
  | |- forall _, _ => intros ?
  | |- emits _ _ (let x := _ in _) => cbv zeta
  | |- emits _ _ (mret _) => apply emits_ret
  | |- emits _ _ (if ?c then _ else _) => destruct c
  | |- emits _ _ (match ?x with _ => _ end) => destruct x
  | |- emits log_open _ (mbind _ (release_resources _ _ _ _ _)) =>
      apply emits_bind; [apply emits_release_resources_open|]
  | H : log_path ?o = None
    |- emits any_log _ (mbind _ (release_resources ?o _ _ _ _)) =>
      apply emits_bind; [apply (emits_release_resources_no_log _ _ _ _ _ H)|]
  | |- emits any_log _ (mbind _ (match log_path ?o with _ => _ end)) =>
      let Hlog := fresh "Hlog" in
      destruct (log_path o) eqn:Hlog;
        [apply emits_open_log_file_bind; [intros ?|intros ? ?];
         cbn [nonzero Z.eqb negb]|]
  | |- emits _ _ (mbind _ _) =>
      apply emits_plain_bind; [solve [plain_all]|]
  end.

(** X16.  No run of [cen64_main] calls [fclose]: whatever the host
    answers and whatever the arguments are, the log file that
    [open_log_file] opened is never closed. *)
Theorem cen64_main_never_closes_log h argc argv w :
  exists evs,
    trace (snd (cen64_main h argc argv w)) = trace w ++ evs /\
    Forall not_fclose evs.
Proof.
  assert (H : emits any_log not_fclose (cen64_main h argc argv)).
  { unfold cen64_main. walk_no_fclose. }
  exact (proj2 (H w I)).
Qed.


(** *** [cen64_alloc_cleanup] is the last call, and is called once *)

Lemma ewc_plain_bind {A B} (m : M A) (k : A -> M B) :
  plain not_cleanup m -> (forall a, ends_with_cleanup (k a)) ->
  ends_with_cleanup (m ≫= k).
Proof.
  intros Hm Hk w. unfold mbind, M_bind.
  destruct (Hm w) as (_ & evs & Ht & Hp).
  destruct (Hk (fst (m w)) (snd (m w))) as (evs' & Ht' & Hp').
  exists (evs ++ evs'). split.
  - rewrite Ht', Ht. now rewrite <- !app_assoc.
  - now apply Forall_app.
Qed.

Lemma open_log_file_trace h path w :
  trace (snd (open_log_file h path w)) = trace w.
Proof.
  destruct (fopen h path "w") as [f|] eqn:Hf.
  - now rewrite (open_log_file_succeeds h path w f Hf).
  - now rewrite (open_log_file_fails h path w Hf).
Qed.

Lemma ewc_open_log_file_bind {B} h path (k : Z -> M B) :
  (forall a, ends_with_cleanup (k a)) ->
  ends_with_cleanup (open_log_file h path ≫= k).
Proof.
  intros Hk w. unfold mbind, M_bind.
  destruct (Hk (fst (open_log_file h path w)) (snd (open_log_file h path w)))
    as (evs & Ht & Hp).
  exists evs. now rewrite Ht, open_log_file_trace.
Qed.

Lemma ewc_cleanup {A} (a : A) :
  ends_with_cleanup (cen64_alloc_cleanup ;; mret a).
Proof. intros w. exists []. split; [reflexivity|constructor]. Qed.

Lemma ewc_release_resources {A} o r1 r2 r3 r4 (a : A) :
  ends_with_cleanup (release_resources o r1 r2 r3 r4 ;; mret a).
Proof.
  unfold release_resources. intros w.
  set (m := (when (nonnull (ddipl_path o)) (close_rom_file r1) ;;
             when (nonnull (ddrom_path o)) (close_rom_file r2) ;;
             when (nonnull (cart_path o)) (close_rom_file r4) ;;
             when (nonnull (log_path o)) close_log_file ;;
             close_rom_file r3) : M unit).
  assert (Hm : plain not_cleanup m).
  { subst m.
    repeat match goal with
    | |- plain _ close_log_file =>
        eapply plain_weaken; [|apply plain_close_log_file];
        intros ? ->; exact I
    | |- _ => progress plain_steps
    end. }
  destruct (Hm w) as (_ & evs & Ht & Hp).
  exists evs. split; [|exact Hp].
  unfold mbind, M_bind, mret, M_ret, cen64_alloc_cleanup, call in *.
  cbn [fst snd trace] in *.
  change (when (nonnull (ddipl_path o)) (close_rom_file r1) w)
    with ((when (nonnull (ddipl_path o)) (close_rom_file r1)) w) in *.
  subst m. cbn beta in Ht. rewrite Ht. now rewrite <- app_assoc.
Qed.

Ltac walk_cleanup :=
  repeat match goal with
  | |- forall _, _ => intros ?
  | |- ends_with_cleanup (let x := _ in _) => cbv zeta
  | |- ends_with_cleanup (if ?c then _ else _) => destruct c
  | |- ends_with_cleanup (match ?x with _ => _ end) => destruct x
  | |- ends_with_cleanup (mbind _ cen64_alloc_cleanup) => apply ewc_cleanup
  | |- ends_with_cleanup (mbind _ (release_resources _ _ _ _ _)) =>
      apply ewc_release_resources
  | |- ends_with_cleanup (mbind _ (match log_path ?o with _ => _ end)) =>
      destruct (log_path o); [apply ewc_open_log_file_bind|]
  | |- ends_with_cleanup (mbind _ _) =>
      apply ewc_plain_bind; [solve [plain_all]|]
  end.

(** X17.  Once the cart DB check and [cen64_alloc_init] have passed, every
    run of [cen64_main] calls [cen64_alloc_cleanup] exactly once, as its
    last call; when one of the two fails it is not called at all. *)
Theorem cen64_main_cleans_up_once h argc argv w :
  let r := cen64_main h argc argv w in
  if cart_db_is_well_formed h && (cen64_alloc_init h =? 0)
  then exists evs,
         trace (snd r) = trace w ++ evs ++ [ev_cen64_alloc_cleanup] /\
         Forall not_cleanup evs
  else exists evs,
         trace (snd r) = trace w ++ evs /\ Forall not_cleanup evs.
Proof.
  intros r. subst r. unfold cen64_main.
  destruct (cart_db_is_well_formed h); cbn [negb andb].
  2: { eexists. split; [reflexivity|]. repeat constructor. }
  change (nonzero (cen64_alloc_init h))
    with (negb (cen64_alloc_init h =? 0)).
  destruct (cen64_alloc_init h =? 0); cbn [negb].
  2: { eexists. split; [reflexivity|]. repeat constructor. }
  match goal with
  | |- context [snd (?m w)] => assert (H : ends_with_cleanup m)
  end.
  { walk_cleanup. }
  exact (H w).
Qed.


(** *** How often the device is destroyed *)

Lemma count_app p evs evs' : count p (evs ++ evs') = (count p evs + count p evs')%nat.
Proof. unfold count. now rewrite List.filter_app, length_app. Qed.

Lemma outside_run_neutral evs :
  Forall outside_run evs ->
  count is_destroy evs = 0%nat /\
  existsb is_thread_failure evs = false /\
  existsb is_join evs = false.
Proof.
  induction 1 as [|e evs (Hd & Hf & Hj) _ (IHd & IHf & IHj)].
  - repeat split.
  - unfold count in *. cbn. rewrite Hd, Hf, Hj. cbn. auto.
Qed.

Lemma destroy_law_frame pre evs post :
  Forall outside_run pre -> Forall outside_run post ->
  destroy_law evs -> destroy_law (pre ++ evs ++ post).
Proof.
  intros Hpre Hpost Hlaw.
  destruct (outside_run_neutral pre Hpre) as (Hd & Hf & Hj).
  destruct (outside_run_neutral post Hpost) as (Hd' & Hf' & Hj').
  unfold destroy_law in *.
  rewrite !count_app, !existsb_app, Hd, Hf, Hj, Hd', Hf', Hj', Hlaw.
  rewrite !orb_false_r. cbn. lia.
Qed.

Lemma dbl_ret {A} (a : A) : destroys_by_law (mret a).
Proof. intros w. exists []. split; [now rewrite app_nil_r|reflexivity]. Qed.

Lemma dbl_plain_bind {A B} (m : M A) (k : A -> M B) :
  plain outside_run m -> (forall a, destroys_by_law (k a)) ->
  destroys_by_law (m ≫= k).
Proof.
  intros Hm Hk w. unfold mbind, M_bind.
  destruct (Hm w) as (_ & pre & Ht & Hp).
  destruct (Hk (fst (m w)) (snd (m w))) as (evs & Ht' & Hlaw).
  exists (pre ++ evs). split.
  - rewrite Ht', Ht. now rewrite app_assoc.
  - rewrite <- (app_nil_r evs). apply destroy_law_frame; auto.
Qed.

Lemma dbl_open_log_file_bind {B} h path (k : Z -> M B) :
  (forall a, destroys_by_law (k a)) ->
  destroys_by_law (open_log_file h path ≫= k).
Proof.
  intros Hk w. unfold mbind, M_bind.
  destruct (Hk (fst (open_log_file h path w)) (snd (open_log_file h path w)))
    as (evs & Ht & Hp).
  exists evs. now rewrite Ht, open_log_file_trace.
Qed.

Lemma dbl_create_and_run h o r1 r2 r3 r4 s1 s2 s3 cs :
  destroys_by_law (create_and_run h o r1 r2 r3 r4 s1 s2 s3 cs).
Proof.
  intros w. unfold create_and_run, run_device.
  destruct (cen64_alloc h) as [device|];
    [destruct (device_create _ _ _ _ _ _ _ _ _ _ _ _) as [device'|];
     [destruct (nonzero (cen64_thread_create h));
      [|destruct (no_video o)]|]|];
  unfold mbind, M_bind, mret, M_ret, when, printf, call; cbn;
  rewrite <- ?app_assoc; (eexists; split; [reflexivity|]);
  vm_compute; reflexivity.
Qed.

Ltac weaken_outside :=
  let e := fresh "e" in
  let He := fresh "He" in
  intros e He; destruct e; cbn in He; try contradiction;
  try (repeat split; reflexivity);
  try (lazymatch type of He with
       | ex _ => destruct He as [? He]; discriminate He
       | _ = _ => discriminate He
       end);
  repeat split; try reflexivity;
  unfold is_thread_failure;
  repeat (destruct He as [<-|He]; [reflexivity|]); contradiction.

Lemma dbl_run_and_release h o r1 r2 r3 r4 s1 s2 s3 cs :
  destroys_by_law
    (status ← create_and_run h o r1 r2 r3 r4 s1 s2 s3 cs ;
     release_resources o r1 r2 r3 r4 ;; mret status).
Proof.
  intros w. unfold mbind at 1 2, M_bind, mret, M_ret. cbn [fst snd].
  destruct (dbl_create_and_run h o r1 r2 r3 r4 s1 s2 s3 cs w)
    as (evs & Ht & Hlaw).
  assert (Hrel : plain outside_run (release_resources o r1 r2 r3 r4)).
  { unfold release_resources. plain_all_with weaken_outside. }
  destruct (Hrel (snd (create_and_run h o r1 r2 r3 r4 s1 s2 s3 cs w)))
    as (_ & post & Ht' & Hpost).
  exists (evs ++ post). split.
  - rewrite Ht', Ht. now rewrite app_assoc.
  - change (evs ++ post) with ([] ++ evs ++ post).
    apply destroy_law_frame; auto.
Qed.

Ltac walk_destroy :=
  repeat match goal with
  | |- forall _, _ => intros ?
  | |- destroys_by_law (let x := _ in _) => cbv zeta
  | |- destroys_by_law (mret _) => apply dbl_ret
  | |- destroys_by_law (if ?c then _ else _) => destruct c
  | |- destroys_by_law (match ?x with _ => _ end) => destruct x
  | |- destroys_by_law (mbind _ (create_and_run _ _ _ _ _ _ _ _ _ _)) =>
      apply dbl_run_and_release
  | |- destroys_by_law (mbind _ (match log_path ?o with _ => _ end)) =>
      destruct (log_path o); [apply dbl_open_log_file_bind|]
  | |- destroys_by_law (mbind _ _) =>
      apply dbl_plain_bind; [solve [plain_all_with weaken_outside]|]
  end.

(** X18.  In every run of [cen64_main], [device_destroy] is called twice
    when the emulation thread could not be created ([run_device] destroys
    the device and [cen64_main] destroys it again), once when the thread
    was joined, and not at all otherwise. *)
Theorem cen64_main_destroys_device h argc argv w :
  exists evs,
    trace (snd (cen64_main h argc argv w)) = trace w ++ evs /\
    count is_destroy evs
    = if existsb is_thread_failure evs then 2%nat
      else if existsb is_join evs then 1%nat else 0%nat.
Proof.
  assert (H : destroys_by_law (cen64_main h argc argv)).
  { unfold cen64_main. walk_destroy. }
  exact (H w).
Qed.

End EffectFacts.

(** ** The whole RSP opcode table *)

Section RspTableFacts.
Import RspTable.

Lemma fold_lor_has (bits : Rsp.opcode_info -> Z) x l : forall acc,
  Z.land acc (bits x) = bits x \/ In x l ->
  Z.land (fold_left (fun acc y => Z.lor acc (bits y)) l acc) (bits x)
  = bits x.
Proof.
  induction l as [|y l IH]; intros acc H; cbn [fold_left].
  - destruct H as [H|[]]. exact H.
  - apply IH. destruct H as [H|[->|H]].
    + left. now apply land_lor_l.
    + left. apply land_lor_r.
    + now right.
Qed.

(** X19.  Every entry of the table is filed under its own opcode, and an
    opcode without an implementation asks for nothing: the entries executed
    by [INVALID] have the info [NONE] and those executed by [VINVALID] the
    info [VECTOR], with no register, load, store or branch flag. *)
Theorem unimplemented_opcodes_ask_nothing op :
  id (table op) = op /\
  (func (table op) = FUNCTION_INVALID -> info (table op) = [NONE]) /\
  (func (table op) = FUNCTION_VINVALID -> info (table op) = [VECTOR]).
Proof. destruct op; repeat split; intros H; try discriminate H; reflexivity. Qed.

(** The names in each entry are of one kind. *)
Lemma names_are_of_one_kind op :
  let i := info (table op) in
  (In LOAD i \/ In STORE i ->
   In NEEDRS i /\ ~ In BRANCH i /\ ~ In VECTOR i) /\
  ~ (In LOAD i /\ In STORE i) /\
  (In STORE i -> In NEEDRT i \/ In NEEDVT i) /\
  (In BRANCH i -> incl i [BRANCH; NEEDRS; NEEDRT]) /\
  (In VECTOR i -> incl i [VECTOR; NEEDVS; NEEDVT]) /\
  (In NEEDVS i -> In NEEDVT i /\ In VECTOR i).
Proof.
  destruct op; cbn; unfold incl; cbn;
    intuition (try discriminate; subst; auto 10).
Qed.

(** X21.  Whatever values the constants [OPCODE_INFO_x] have, the bitset
    of an entry contains the bits of each of its flags. *)
Theorem info_value_has_flags bits op x :
  In x (info (table op)) ->
  Z.land (info_value bits (info (table op))) (bits x) = bits x.
Proof.
  intros Hx. unfold info_value.
  destruct (info (table op)) as [|y l]; [destruct Hx|].
  apply fold_lor_has. destruct Hx as [->|Hx].
  - left. apply Z.land_diag.
  - now right.
Qed.

Lemma info_value_has_flags_LQV :
  In LOAD (info (table LQV)) /\
  Z.land (info_value Samples.sample_bits (info (table LQV))) 0x40 = 0x40.
Proof.
  assert (Hx : In LOAD (info (table LQV))) by (cbn; auto).
  split; [exact Hx|].
  exact (info_value_has_flags Samples.sample_bits LQV LOAD Hx).
Defined.

End RspTableFacts.

(** ** The exit code, step by step *)

Section ExitCodePhases.
Import Host Debug Cen64 Observe RomSpec ExitSpec Samples.

Lemma value_ret {A} (a : A) : value (mret a) a.
Proof. intros w. reflexivity. Qed.

Lemma value_bind {A B} (m : M A) (k : A -> M B) b :
  (forall w, value (k (fst (m w))) b) -> value (m ≫= k) b.
Proof. intros H w. unfold mbind, M_bind. apply H. Qed.

Lemma value_seq {A B} (m : M A) (k : M B) b :
  value k b -> value (m ;; k) b.
Proof. intros H. apply value_bind. intros w. exact H. Qed.

Lemma value_then {A} (m : M Z) (k : M A) v :
  value m v -> value (status ← m ; k ;; mret status) v.
Proof.
  intros Hm. apply value_bind. intros w. apply value_seq.
  rewrite (Hm w). apply value_ret.
Qed.

(** [load_roms] returns the position of the first request that fails, and
    when none does it leaves the ROMs as they were opened. *)
Lemma load_roms_value h p1 p2 p3 p4 r1 r2 r3 r4 w :
  let r := fst (load_roms h p1 p2 p3 p4 r1 r2 r3 r4 w) in
  fst r = first_failure h (rom_requests p1 p2 p3 p4) 1 /\
  (nonzero (fst r) = false ->
   snd r = (snd (open_rom_file_if_path h p1 zero_rom_file),
            snd (open_rom_file_if_path h p2 r2),
            snd (open_rom_file h p3),
            snd (open_rom_file_if_path h p4 r4))).
Proof.
  intros r. subst r.
  unfold load_roms, open_rom_file_if_path, rom_requests.
  cbn [first_failure]. unfold request_fails, attempted. cbn [fst snd negb orb].
  destruct p1 as [p1|], p2 as [p2|], p4 as [p4|]; cbn [nonnull andb];
  repeat match goal with
  | |- context [open_rom_file h ?p] =>
      let rc := fresh "rc" in
      destruct (open_rom_file h p) as [rc ?]; cbn [fst snd];
      destruct (nonzero rc)
  end;
  rewrite ?nonzero_0;
  unfold mbind, M_bind, mret, M_ret, when, printf, close_rom_file, call;
  cbn [fst snd trace log_fp];
  repeat match goal with
  | |- context [validate_sha ?a ?b ?c] => destruct (validate_sha a b c)
  end; cbn; split; (reflexivity || discriminate).
Qed.

(** What [load_paks] returns does not depend on the world. *)
Lemma load_paks_loop_value h n : forall i cs w w',
  fst (load_paks_loop h n i cs w) = fst (load_paks_loop h n i cs w').
Proof.
  induction n as [|n IH]; intros i cs w w'; cbn [load_paks_loop].
  - reflexivity.
  - repeat match goal with
    | |- context [if ?c then _ else _] => destruct c
    | |- context [match ?x with _ => _ end] => destruct x
    end;
    unfold mbind, M_bind, mret, M_ret; cbn [fst snd];
    first [apply IH | reflexivity].
Qed.

Lemma open_log_file_value h path :
  value (open_log_file h path) (if nonnull (fopen h path "w") then 0 else 1).
Proof.
  intros w. unfold open_log_file, mbind, M_bind, set_log_fp, get_log_fp.
  cbn [fst snd log_fp]. now destruct (fopen h path "w").
Qed.

Lemma create_and_run_value h o r1 r2 r3 r4 s1 s2 s3 cs :
  value (create_and_run h o r1 r2 r3 r4 s1 s2 s3 cs)
    (exit_code (failed_in_run h (fun device =>
       device_create h device r1 r2 r3 r4 s1 s2 s3 cs
         (no_audio o) (no_video o)))).
Proof.
  unfold create_and_run, failed_in_run.
  destruct (cen64_alloc h) as [device|].
  2: { apply value_seq, value_ret. }
  destruct (device_create _ _ _ _ _ _ _ _ _ _ _ _) as [device'|].
  2: { intros w. reflexivity. }
  unfold run_device.
  destruct (nonzero (cen64_thread_create h)); intros w; reflexivity.
Qed.

Lemma cen64_main_value h argc argv :
  value (cen64_main h argc argv) (exit_code (failed_phase h argc argv)).
Proof.
  unfold cen64_main, failed_phase, initial_options. cbv zeta.
  destruct (cart_db_is_well_formed h); cbn [negb].
  2: { apply value_seq, value_ret. }
  destruct (nonzero (cen64_alloc_init h)).
  { apply value_seq, value_ret. }
  destruct (argc <? 3).
  { apply value_seq, value_seq, value_ret. }
  destruct (parse_options h _ _ _) as [rc o].
  destruct (nonzero rc).
  { apply value_seq, value_seq, value_seq, value_ret. }
  unfold failed_after_options, roms_fail, log_fails, paks_fail, saves_fail,
    device_created, controllers_given, flashram_given, eeprom_file, sram_file,
    flashram_file, loaded_rom.
  cbv zeta.
  (* the ROMs *)
  apply value_bind. intros w.
  match goal with
  | |- context [@fst ?A ?B (load_roms h ?p1 ?p2 ?p3 ?p4 ?r1 ?r2 ?r3 ?r4 w)] =>
      set (r := @fst A B (load_roms h p1 p2 p3 p4 r1 r2 r3 r4 w));
      pose proof (load_roms_value h p1 p2 p3 p4 r1 r2 r3 r4 w) as Hr;
      cbv zeta in Hr;
      change (fst (load_roms h p1 p2 p3 p4 r1 r2 r3 r4 w)) with r in Hr
  end.
  clearbody r. destruct r as [rc0 [[[ddipl ddrom] pifrom] cart]].
  destruct Hr as [Hrc Hroms].
  cbn [fst snd] in Hrc, Hroms. rewrite <- Hrc.
  destruct (nonzero rc0).
  { apply value_seq, value_ret. }
  specialize (Hroms eq_refl). injection Hroms as -> -> -> ->.
  (* the log file *)
  apply value_bind. intros w1.
  assert (Hlog : fst ((match log_path o with
                       | Some path => open_log_file h path
                       | None => mret 0
                       end) w1)
                 = if match log_path o with
                      | Some path => negb (nonnull (fopen h path "w"))
                      | None => false
                      end then 1 else 0).
  { destruct (log_path o) as [path|]; [|reflexivity].
    rewrite (open_log_file_value h path w1).
    now destruct (fopen h path "w"). }
  rewrite Hlog. clear Hlog.
  destruct (match log_path o with Some _ => _ | None => _ end);
    cbn [nonzero Z.eqb negb].
  { apply value_seq, value_ret. }
  (* the cart, and the paks *)
  apply value_seq. apply value_bind. intros w2.
  unfold load_paks.
  rewrite (load_paks_loop_value h 4 0 (controller o) w2 init_world).
  destruct (load_paks_loop_spec h 4 0 (controller o) init_world) as [Hst _].
  destruct (fst (load_paks_loop h 4 0 (controller o) init_world)) as [rc2 cs].
  cbn [fst snd] in Hst |- *. subst rc2.
  destruct (paks_load h (controller o) 0 4); cbn [nonzero Z.eqb negb].
  2: { apply value_seq, value_ret. }
  (* the saves *)
  destruct (open_save_file_if_path h (eeprom_path o) _ _) as [[rc3 eeprom] c3].
  cbn [fst snd]. destruct (nonzero rc3); cbn [orb].
  { apply value_seq, value_ret. }
  destruct (open_save_file_if_path h (sram_path o) _ _) as [[rc4 sram] c4].
  cbn [fst snd]. destruct (nonzero rc4); cbn [orb].
  { apply value_seq, value_ret. }
  destruct (open_save_file_if_path h (flashram_path o) _ _)
    as [[rc5 flashram] created].
  cbn [fst snd]. destruct (nonzero rc5).
  { apply value_seq, value_ret. }
  (* the device *)
  apply value_then. apply create_and_run_value.
Qed.

(** Each step can be the one that fails, and the exit code is then 1. *)
Lemma each_phase_can_fail p :
  failed_phase (failing_host p) 3 sample_argv = Some p /\
  fst (cen64_main (failing_host p) 3 sample_argv init_world) = EXIT_FAILURE.
Proof. destruct p; vm_compute; split; reflexivity. Qed.

(** C6, as the code has it.  [cen64_main] returns [EXIT_SUCCESS] (0) or
    [EXIT_FAILURE] (1) and nothing else.  It returns 0 exactly when the
    emulation thread was created and joined, or when the cart DB check and
    the allocator initialisation passed and [argc < 3] (the usage text).
    Its exit code is 1 exactly when one of the steps fails, whichever it
    is: the cart DB check, the allocator initialisation, the parsing of
    the options, the loading of the ROMs, the opening of the log file, the
    loading of the paks, the opening of the saves, the allocation or the
    creation of the device, or the creation of the thread; the thread is
    then not joined.  When no step fails the exit code is 0, and with
    [argc >= 3] the thread was joined. *)
Theorem cen64_main_exit_code h argc argv :
  let r := cen64_main h argc argv init_world in
  (fst r = EXIT_SUCCESS \/ fst r = EXIT_FAILURE) /\
  (fst r = EXIT_SUCCESS <->
     joined (snd r) \/
     (cart_db_is_well_formed h = true /\ cen64_alloc_init h = 0 /\ argc < 3)) /\
  fst r = exit_code (failed_phase h argc argv) /\
  (forall p, failed_phase h argc argv = Some p ->
             fst r = EXIT_FAILURE /\ ~ joined (snd r)) /\
  (failed_phase h argc argv = None ->
   fst r = EXIT_SUCCESS /\ (3 <= argc -> joined (snd r))).
Proof.
  intros r.
  destruct (exit_code_tells_join h argc argv) as [Hcodes Hjoin].
  fold r in Hcodes, Hjoin.
  assert (Hvalue : fst r = exit_code (failed_phase h argc argv))
    by apply cen64_main_value.
  split; [exact Hcodes|]. split; [exact Hjoin|]. split; [exact Hvalue|].
  split.
  - intros p Hp. rewrite Hp in Hvalue. cbn [exit_code] in Hvalue.
    split; [exact Hvalue|].
    intros Hj. assert (H0 : fst r = EXIT_SUCCESS) by (apply Hjoin; now left).
    rewrite Hvalue in H0. discriminate H0.
  - intros Hnone. rewrite Hnone in Hvalue. cbn [exit_code] in Hvalue.
    split; [exact Hvalue|].
    intros Hargc. apply Hjoin in Hvalue.
    destruct Hvalue as [Hj|(_ & _ & Hlt)]; [exact Hj|lia].
Qed.

End ExitCodePhases.

(** ** The info bitsets of the table *)

Section RspFlagFacts.
Import RspTable RspFlags.

Lemma private_spec bits x y :
  private bits x = true -> y <> x -> Z.land (bits y) (bits x) = 0.
Proof.
  unfold private. rewrite forallb_forall. intros H Hne.
  assert (Hy : In y all_flags) by (destruct y; cbn; auto 10).
  specialize (H y Hy). apply orb_true_iff in H. destruct H as [H|H].
  - apply bool_decide_eq_true in H. contradiction.
  - now apply Z.eqb_eq.
Qed.

Lemma fold_lor_lacks (bits : Rsp.opcode_info -> Z) x l : forall acc,
  Z.land acc (bits x) = 0 ->
  (forall y, In y l -> Z.land (bits y) (bits x) = 0) ->
  Z.land (fold_left (fun acc y => Z.lor acc (bits y)) l acc) (bits x) = 0.
Proof.
  induction l as [|y l IH]; intros acc Hacc Hl; cbn [fold_left].
  - exact Hacc.
  - apply IH.
    + rewrite Z.land_lor_distr_l, Hacc, (Hl y) by (now left). reflexivity.
    + intros z Hz. apply Hl. now right.
Qed.

(** A bit of a private constant is in the bitset only if the entry names
    the constant. *)
Lemma carried_is_named bits l x :
  private bits x = true -> carries bits (info_value bits l) x -> In x l.
Proof.
  intros Hp Hc.
  destruct (in_dec opcode_info_eq_dec x l) as [Hin|Hout]; [exact Hin|].
  exfalso. apply Hc. unfold info_value.
  destruct l as [|y l]; [apply Z.land_0_l|].
  apply fold_lor_lacks.
  - apply (private_spec bits x y Hp). intros ->. apply Hout. now left.
  - intros z Hz. apply (private_spec bits x z Hp).
    intros ->. apply Hout. now right.
Qed.

Lemma named_is_contained bits l x :
  In x l -> contains bits (info_value bits l) x.
Proof.
  intros Hx. unfold contains, info_value.
  destruct l as [|y l]; [destruct Hx|].
  apply fold_lor_has. destruct Hx as [->|Hx].
  - left. apply Z.land_diag.
  - now right.
Qed.

Lemma fold_lor_within (bits : Rsp.opcode_info -> Z) u l : forall acc,
  within acc u ->
  (forall y, In y l -> within (bits y) u) ->
  within (fold_left (fun acc y => Z.lor acc (bits y)) l acc) u.
Proof.
  unfold within.
  induction l as [|y l IH]; intros acc Hacc Hl; cbn [fold_left].
  - exact Hacc.
  - apply IH.
    + rewrite Z.land_lor_distr_l, Hacc, (Hl y) by (now left). reflexivity.
    + intros z Hz. apply Hl. now right.
Qed.

(** The bitset of names that are all among [l'] has no bit outside the
    bitset of [l']. *)
Lemma incl_within bits l l' :
  incl l l' -> within (info_value bits l) (info_value bits l').
Proof.
  intros Hincl.
  assert (Hin : forall y, In y l -> within (bits y) (info_value bits l')).
  { intros y Hy. unfold within. rewrite Z.land_comm.
    apply named_is_contained, Hincl, Hy. }
  unfold info_value at 1. destruct l as [|y l]; [apply Z.land_0_l|].
  apply fold_lor_within.
  - apply Hin. now left.
  - intros z Hz. apply Hin. now right.
Qed.

(** X20.  Let the constants [OPCODE_INFO_x] have any values in which
    [LOAD], [STORE] and [BRANCH] share no bit with another constant.  Then
    in the info bitset of every entry: a bit of [LOAD] or [STORE] comes
    with all of [NEEDRS] and without a bit of [BRANCH]; bits of [LOAD]
    and of [STORE] never come together; a bit of [STORE] comes with all of
    [NEEDRT] or all of [NEEDVT]; and with a bit of [BRANCH] the bitset has
    no bit outside [BRANCH | NEEDRS | NEEDRT]. *)
Theorem flags_are_of_one_kind bits op :
  private bits LOAD = true ->
  private bits STORE = true ->
  private bits BRANCH = true ->
  let v := info_value bits (info (table op)) in
  (carries bits v LOAD \/ carries bits v STORE ->
   contains bits v NEEDRS /\ ~ carries bits v BRANCH) /\
  ~ (carries bits v LOAD /\ carries bits v STORE) /\
  (carries bits v STORE ->
   contains bits v NEEDRT \/ contains bits v NEEDVT) /\
  (carries bits v BRANCH ->
   within v (info_value bits [BRANCH; NEEDRS; NEEDRT])).
Proof.
  intros Hload Hstore Hbranch v. subst v.
  destruct (names_are_of_one_kind op) as (Hls & Hnot & Hst & Hbr & _ & _).
  cbv zeta in Hls, Hnot, Hst, Hbr.
  pose proof (carried_is_named bits (info (table op)) LOAD Hload) as Nload.
  pose proof (carried_is_named bits (info (table op)) STORE Hstore) as Nstore.
  pose proof (carried_is_named bits (info (table op)) BRANCH Hbranch)
    as Nbranch.
  split; [|split; [|split]].
  - intros Hc.
    assert (Hn : In LOAD (info (table op)) \/ In STORE (info (table op)))
      by (destruct Hc; [left|right]; auto).
    destruct (Hls Hn) as (Hrs & Hnb & _).
    split; [now apply named_is_contained|].
    intros Hb. apply Hnb, Nbranch, Hb.
  - intros [Hl Hs]. apply Hnot. split; auto.
  - intros Hs. destruct (Hst (Nstore Hs)) as [Hrt|Hvt];
      [left|right]; now apply named_is_contained.
  - intros Hb. apply incl_within, Hbr, Nbranch, Hb.
Qed.

Lemma flags_are_of_one_kind_overlapping :
  private overlapping_bits LOAD = true /\
  private overlapping_bits STORE = true /\
  private overlapping_bits BRANCH = true /\
  carries overlapping_bits
    (info_value overlapping_bits (info (table SQV))) STORE /\
  contains overlapping_bits
    (info_value overlapping_bits (info (table SQV))) NEEDRS.
Proof.
  assert (Hload : private overlapping_bits LOAD = true) by reflexivity.
  assert (Hstore : private overlapping_bits STORE = true) by reflexivity.
  assert (Hbranch : private overlapping_bits BRANCH = true) by reflexivity.
  assert (Hc : carries overlapping_bits
                 (info_value overlapping_bits (info (table SQV))) STORE)
    by (vm_compute; discriminate).
  split; [exact Hload|]. split; [exact Hstore|]. split; [exact Hbranch|].
  split; [exact Hc|].
  exact (proj1 (proj1 (flags_are_of_one_kind overlapping_bits SQV
                         Hload Hstore Hbranch) (or_intror Hc))).
Defined.

End RspFlagFacts.
